(** * Bulk SMTP verifier: a shallow embedding of [index.js]

    The development follows the source file top-down: the two static
    tables, the reply parser [parseSMTPResponse], the resolver
    [getMxHosts], the probe session [smtpProbe] and the engine
    [verifyEmail].

    Conventions.
    - A JavaScript string is a [string]; its characters are the code
      units the source inspects (digits, space, hyphen, CR, LF, the at
      sign, the dot and the ASCII letters).
    - A JavaScript number that holds an integer is a [Z].
    - DNS and the network are the environment: the resolver's answers
      and, for every connection, the sequence of callbacks the event
      loop delivers to the session are given by a record [Env]. *)

From Stdlib Require Import ZArith Lia Ascii String DecimalString Sorted.
From stdpp Require Import base tactics option list strings gmap.

Local Open Scope Z_scope.

(** ** Characters and strings *)

Module Chars.

Definition CR : ascii := "013"%char.
Definition LF : ascii := "010"%char.

(** [\d] of a regular expression without the unicode flag: [0-9]. *)
Definition is_digit (c : ascii) : bool :=
  (48 <=? Z.of_N (N_of_ascii c)) && (Z.of_N (N_of_ascii c) <=? 57).

Definition digit_value (c : ascii) : Z := Z.of_N (N_of_ascii c) - 48.

Definition is_upper (c : ascii) : bool :=
  (65 <=? Z.of_N (N_of_ascii c)) && (Z.of_N (N_of_ascii c) <=? 90).

(** The case mapping of [String.prototype.toLowerCase] on one code
    unit, for the ASCII letters.  No other character lower-cases to
    an ASCII letter except the Kelvin sign (to [k]), and no entry of
    the two tables below contains a [k]. *)
Definition lower (c : ascii) : ascii :=
  if is_upper c then ascii_of_N (N_of_ascii c + 32) else c.

End Chars.

Definition CRLF : string := String Chars.CR (String Chars.LF "").

(** A template literal prints an integer in decimal. *)
Definition show (z : Z) : string := NilZero.string_of_int (Z.to_int z).

Fixpoint toLowerCase (s : string) : string :=
  match s with
  | EmptyString => EmptyString
  | String c s' => String (Chars.lower c) (toLowerCase s')
  end.

(** [Array.prototype.join]. *)
Fixpoint join (sep : string) (l : list string) : string :=
  match l with
  | [] => ""
  | [x] => x
  | x :: l' => x +:+ sep +:+ join sep l'
  end.

(** [String.prototype.split] with a one-character separator: the
    result always has at least one element. *)
Fixpoint split_on (sep : ascii) (s : string) : list string :=
  match s with
  | EmptyString => [""]
  | String c s' =>
      if Ascii.eqb c sep then "" :: split_on sep s'
      else match split_on sep s' with
           | [] => [String c ""]
           | x :: l => String c x :: l
           end
  end.

(** [text.split(/\r\n|\n/)]: a line ends at CR LF or at a lone LF; a CR
    that no LF follows is an ordinary character. *)
Fixpoint split_lines (s : string) : list string :=
  match s with
  | EmptyString => [""]
  | String c s' =>
      let keep :=
        match split_lines s' with
        | [] => [String c ""]
        | x :: l => String c x :: l
        end in
      if Ascii.eqb c Chars.LF then "" :: split_lines s'
      else if Ascii.eqb c Chars.CR then
        match s' with
        | String c' s'' =>
            if Ascii.eqb c' Chars.LF then "" :: split_lines s'' else keep
        | EmptyString => keep
        end
      else keep
  end.

(** [filter(Boolean)] on an array of strings: the empty string is the
    only falsy one. *)
Definition nonempty (s : string) : bool :=
  match s with EmptyString => false | _ => true end.

(** ** Static tables *)

Definition roleBased : list string :=
  [ "admin"; "support"; "info"; "contact"; "sales";
    "help"; "billing"; "webmaster"; "security" ].

Definition disposableDomains : gset string :=
  list_to_set
    [ "tempmail.com"; "10minutemail.com"; "guerrillamail.com";
      "yopmail.com"; "mailinator.com" ].

(** [roleBased.includes(x)]. *)
Definition includes (l : list string) (x : string) : bool :=
  bool_decide (x ∈ l).

(** [disposableDomains.has(x)]. *)
Definition has (s : gset string) (x : string) : bool :=
  bool_decide (x ∈ s).

(** ** Transport replies and the parser *)

Record reply := Reply { code : Z; message : string }.

(** [lines[i].match(re)] where [re] anchors at the start of the line
    and asks for three digits, then one character of the class made of
    the space and the hyphen; the rest of the line is unconstrained.
    The result is the first capture group read by [parseInt(_, 10)]. *)
Definition match_line (l : string) : option Z :=
  match l with
  | String d1 (String d2 (String d3 (String sep _))) =>
      if Chars.is_digit d1 && Chars.is_digit d2 && Chars.is_digit d3
         && (Ascii.eqb sep " " || Ascii.eqb sep "-")
      then Some (100 * Chars.digit_value d1 + 10 * Chars.digit_value d2
                 + Chars.digit_value d3)
      else None
  | _ => None
  end.

(** The loop [for (i = lines.length - 1; i >= 0; i--)]: the last line
    that matches wins. *)
Fixpoint scan_back (rev_lines : list string) : option Z :=
  match rev_lines with
  | [] => None
  | l :: rest =>
      match match_line l with
      | Some c => Some c
      | None => scan_back rest
      end
  end.

Definition parseSMTPResponse (text : string) : option reply :=
  let lines := filter (fun l => nonempty l = true) (split_lines text) in
  match scan_back (rev lines) with
  | Some c => Some (Reply c (join (String Chars.LF "") lines))
  | None => None
  end.

(** ** The environment: DNS answers and socket callbacks *)

(** What a [dns.promises] lookup settles with: an array of records, or
    a rejection. *)
Inductive lookup (A : Type) : Type :=
| Resolved (answer : list A)
| Failed (err : string).
Arguments Resolved {A} answer.
Arguments Failed {A} err.

Record mx_record := Mx { exchange : string; priority : Z }.

(** The callbacks the event loop can run for one probe session. *)
Inductive event : Type :=
| EvConnect                               (* socket 'connect' *)
| EvData (chunk : string)                 (* socket 'data' *)
| EvError (msg : string)                  (* socket 'error', err.message *)
| EvTimer                                 (* the session timer set at creation *)
| EvTick (now : Z)                        (* a 50 ms poll timer; Date.now() *)
| EvWritten (now : Z) (err : option string). (* the callback of socket.write *)

Record Env := {
  dns_mx : string -> lookup mx_record;
  dns_a : string -> lookup string;
  dns_aaaa : string -> lookup string;
  (** callbacks delivered to the n-th connection opened by a
      verification, to this host, for this recipient *)
  session_events : nat -> string -> string -> list event;
  (** [Date.now()] and [Math.floor(Math.random() * 1000)] at the
      catch-all check *)
  Date_now : Z;
  random_1000 : Z
}.

(** ** Awaited computations

    An [async] function either returns, throws, or waits for ever on a
    promise that never settles.  The world records what the function
    did to its surroundings and how many connections it has opened. *)

Inductive outcome (A : Type) : Type :=
| Returned (a : A)
| Thrown (e : string)
| Pending.
Arguments Returned {A} a.
Arguments Thrown {A} e.
Arguments Pending {A}.

Inductive effect : Type :=
| DnsMx (domain : string)
| DnsA (domain : string)
| DnsAAAA (domain : string)
| Connect (host : string) (port : Z) (to : string).

Record world := World { trace : list effect; conns : nat }.

Definition world0 : world := World [] 0.

Definition M (A : Type) : Type := world -> outcome A * world.

Definition ret {A} (a : A) : M A := fun w => (Returned a, w).

Definition bind {A B} (m : M A) (k : A -> M B) : M B :=
  fun w =>
    match m w with
    | (Returned a, w') => k a w'
    | (Thrown e, w') => (Thrown e, w')
    | (Pending, w') => (Pending, w')
    end.

(** [try { m } catch { h }] *)
Definition try_catch {A} (m : M A) (h : string -> M A) : M A :=
  fun w =>
    match m w with
    | (Thrown e, w') => h e w'
    | r => r
    end.

Definition emit (e : effect) : M unit :=
  fun w => (Returned tt, World (trace w ++ [e]) (conns w)).

Notation "'let*' x ':=' m 'in' k" := (bind m (fun x => k))
  (at level 10, x name, m at level 100, k at level 200).

(** [await p] for a DNS promise. *)
Definition await_lookup {A} (r : lookup A) : M (list A) :=
  fun w =>
    match r with
    | Resolved l => (Returned l, w)
    | Failed e => (Thrown e, w)
    end.

(** ** Resolver *)

(** [mx.sort((a, b) => a.priority - b.priority)]: the sort of an array
    is stable, so records of equal priority keep their order. *)
Fixpoint insert_by_priority (m : mx_record) (l : list mx_record)
  : list mx_record :=
  match l with
  | [] => [m]
  | x :: l' =>
      if priority m <=? priority x then m :: x :: l'
      else x :: insert_by_priority m l'
  end.

Definition sort_by_priority (l : list mx_record) : list mx_record :=
  foldr insert_by_priority [] l.

(** [s.replace(re, '')] where [re] is a dot at the very end. *)
Fixpoint strip_trailing_dot (s : string) : string :=
  match s with
  | EmptyString => EmptyString
  | String c s' =>
      match s' with
      | EmptyString => if Ascii.eqb c "." then EmptyString else s
      | _ => String c (strip_trailing_dot s')
      end
  end.

Definition resolveMx (env : Env) (domain : string) : M (list mx_record) :=
  let* _ := emit (DnsMx domain) in await_lookup (dns_mx env domain).

Definition resolve4 (env : Env) (domain : string) : M (list string) :=
  let* _ := emit (DnsA domain) in await_lookup (dns_a env domain).

Definition resolve6 (env : Env) (domain : string) : M (list string) :=
  let* _ := emit (DnsAAAA domain) in await_lookup (dns_aaaa env domain).

(** The inner [try] block of the fallback: [Some l] when it returned
    [l] from the function, [None] when control fell through to the
    final [return []]. *)
Definition address_fallback (env : Env) (domain : string)
  : M (option (list string)) :=
  try_catch
    (let* a := resolve4 env domain in
     if negb (Nat.eqb (length a) 0) then ret (Some [domain])
     else
       let* a6 := resolve6 env domain in
       if negb (Nat.eqb (length a6) 0) then ret (Some [domain])
       else ret None)
    (fun _ => ret None).

Definition getMxHosts (env : Env) (domain : string) : M (list string) :=
  try_catch
    (let* mx := resolveMx env domain in
     if Nat.eqb (length mx) 0 then ret []
     else ret (map (fun m => strip_trailing_dot (exchange m))
                   (sort_by_priority mx)))
    (fun _ =>
       let* r := address_fallback env domain in
       match r with
       | Some l => ret l
       | None => ret []
       end).

(** ** Probe session *)

Record probe_result := ProbeResult { host : string; rcpt : reply }.

Inductive command : Type := EHLO | MAIL_FROM | RCPT_TO.

Definition command_text (from to : string) (c : command) : string :=
  match c with
  | EHLO => "EHLO verifier.example.com"
  | MAIL_FROM => "MAIL FROM:<" +:+ from +:+ ">"
  | RCPT_TO => "RCPT TO:<" +:+ to +:+ ">"
  end.

(** Where the [async] 'connect' handler is suspended. *)
Inductive stage : Type :=
| Connecting                                (* 'connect' has not fired *)
| AwaitingGreeting                          (* [waitGreeting] is polling *)
| Writing (c : command)                     (* [socket.write] issued by [sendCmd] *)
| AwaitingReply (c : command) (start : Z)   (* [waitResp] is polling *)
| Finished.                                 (* the handler has returned *)

(** What the session does to the socket and to its promise, in order. *)
Inductive action : Type :=
| SocketWrite (data : string)
| SocketEnd
| Resolve (r : probe_result).

Record session := Session {
  buffer : string;
  closed : bool;
  timer : bool;                      (* the session timer is armed *)
  settled : option probe_result;     (* the value the promise holds *)
  at_stage : stage;
  actions : list action
}.

Definition TIMEOUT : Z := 8000.

Definition session0 : session :=
  Session "" false true None Connecting [].

Definition set_buffer (b : string) (s : session) : session :=
  Session b (closed s) (timer s) (settled s) (at_stage s) (actions s).

Definition set_stage (st : stage) (s : session) : session :=
  Session (buffer s) (closed s) (timer s) (settled s) st (actions s).

Definition do_action (a : action) (s : session) : session :=
  Session (buffer s) (closed s) (timer s) (settled s) (at_stage s)
          (actions s ++ [a]).

Definition cleanup (s : session) : session :=
  if closed s then s
  else do_action SocketEnd
         (Session (buffer s) true (timer s) (settled s) (at_stage s)
                  (actions s)).

Definition clearTimeout (s : session) : session :=
  Session (buffer s) (closed s) false (settled s) (at_stage s) (actions s).

(** Calling [resolve] on a promise that is already settled does nothing. *)
Definition resolve (r : probe_result) (s : session) : session :=
  do_action (Resolve r)
    (Session (buffer s) (closed s) (timer s)
             (match settled s with Some r0 => Some r0 | None => Some r end)
             (at_stage s) (actions s)).

(** [parsed && parsed.code]: a parsed reply whose code is 0 is not
    taken. *)
Definition usable (buf : string) : option reply :=
  match parseSMTPResponse buf with
  | Some p => if code p =? 0 then None else Some p
  | None => None
  end.

Section Session.

Variables (h from to : string).

Definition sendCmd (c : command) (s : session) : session :=
  set_stage (Writing c)
    (do_action (SocketWrite (command_text from to c +:+ CRLF))
       (set_buffer "" s)).

(** The tail of the handler after [rcpt] is known. *)
Definition finish (r : reply) (s : session) : session :=
  set_stage Finished
    (resolve (ProbeResult h r)
       (cleanup
          (clearTimeout
             (do_action (SocketWrite ("QUIT" +:+ CRLF))
                (do_action (SocketWrite ("RSET" +:+ CRLF)) s))))).

(** The [catch (err)] block of the handler. *)
Definition protocol_error (e : string) (s : session) : session :=
  set_stage Finished
    (resolve (ProbeResult h (Reply 0 ("protocol_error: " +:+ e)))
       (cleanup (clearTimeout s))).

(** What follows the promise of [sendCmd c]: fulfilled with a parsed
    reply ([inl]) or rejected with a message ([inr]). *)
Definition command_done (c : command) (r : reply + string) (s : session)
  : session :=
  match c, r with
  | EHLO, _ => sendCmd MAIL_FROM s
  | MAIL_FROM, inl _ => sendCmd RCPT_TO s
  | MAIL_FROM, inr e => protocol_error e s
  | RCPT_TO, inl p => finish p s
  | RCPT_TO, inr e => finish (Reply 0 e) s
  end.

Definition waitGreeting (s : session) : session :=
  match usable (buffer s) with
  | Some _ => sendCmd EHLO s
  | None => set_stage AwaitingGreeting s
  end.

Definition waitResp (c : command) (start now : Z) (s : session) : session :=
  match usable (buffer s) with
  | Some p => command_done c (inl p) s
  | None =>
      if now - start >? TIMEOUT
      then command_done c (inr "smtp command timeout") s
      else set_stage (AwaitingReply c start) s
  end.

Definition step (s : session) (ev : event) : session :=
  match ev with
  | EvData chunk => set_buffer (buffer s +:+ chunk) s
  | EvError msg =>
      resolve (ProbeResult h (Reply 0 ("socket_error: " +:+ msg)))
        (cleanup (clearTimeout s))
  | EvTimer =>
      if timer s
      then resolve (ProbeResult h (Reply 0 "timeout"))
             (cleanup (clearTimeout s))
      else s
  | EvConnect =>
      match at_stage s with
      | Connecting => waitGreeting s
      | _ => s
      end
  | EvTick now =>
      match at_stage s with
      | AwaitingGreeting => waitGreeting s
      | AwaitingReply c start => waitResp c start now s
      | _ => s
      end
  | EvWritten now err =>
      match at_stage s with
      | Writing c =>
          match err with
          | Some e => command_done c (inr e) s
          | None => waitResp c now now s
          end
      | _ => s
      end
  end.

Definition run (s : session) (evs : list event) : session :=
  foldl step s evs.

End Session.

(** The promise [smtpProbe] returns, after the event loop has delivered
    the callbacks the environment has for this connection. *)
Definition session_result (env : Env) (n : nat) (h from to : string)
  : option probe_result :=
  settled (run h from to session0 (session_events env n h to)).

Definition smtpProbe (env : Env) (h : string) (port : Z) (from to : string)
  : M probe_result :=
  fun w =>
    (match session_result env (conns w) h from to with
     | Some r => Returned r
     | None => Pending
     end,
     World (trace w ++ [Connect h port to]) (S (conns w))).

(** ** Verification engine *)

Inductive classification : Type :=
| invalid_format | role_based | no_mx_record | disposable
| valid | catch_all | invalid | unknown.

Definition in_range (lo hi c : Z) : bool := (lo <=? c) && (c <? hi).

Definition fake_email (env : Env) (domain : string) : string :=
  let randomUser :=
    "catchall_test_" +:+ show (Date_now env) +:+ "_"
    +:+ show (random_1000 env) in
  randomUser +:+ "@" +:+ domain.

(** The [for (const host of hosts)] loop and the final
    [return 'unknown']. *)
Fixpoint probe_hosts (env : Env) (email domain from : string)
    (hosts : list string) : M classification :=
  match hosts with
  | [] => ret unknown
  | h :: rest =>
      let* result := smtpProbe env h 25 from email in
      let c := code (rcpt result) in
      if c =? 0 then probe_hosts env email domain from rest
      else if in_range 200 300 c then
        let* fakeResult := smtpProbe env h 25 from (fake_email env domain) in
        if in_range 200 300 (code (rcpt fakeResult)) then ret catch_all
        else ret valid
      else if in_range 500 600 c then ret invalid
      else if in_range 400 500 c then ret unknown
      else probe_hosts env email domain from rest
  end.

Definition default_from : string := "sanjay@vamenture.com".

Definition verifyEmail (env : Env) (email from : string) : M classification :=
  match split_on "@" email with
  | [local; domain] =>
      if includes roleBased (toLowerCase local) then ret role_based
      else
        let* hosts := getMxHosts env domain in
        if Nat.eqb (length hosts) 0 then ret no_mx_record
        else if has disposableDomains domain then ret disposable
        else probe_hosts env email domain from hosts
  | _ => ret invalid_format
  end.

(** ** The batch endpoint

    [app.post('/verify', ...)]: the handler reads [req.body.email],
    answers 400 unless it is an array, and otherwise verifies the
    elements one after the other, collecting the classifications in an
    object keyed by the address.  The elements of the array are taken
    to be strings. *)

Inductive body_email : Type :=
| NotAnArray                          (* [Array.isArray] is false *)
| EmailArray (emails : list string).

Inductive response_body : Type :=
| ErrorBody (error : string)
| ResultsBody (results : gmap string classification).

Record http_response := Response { status : Z; body : response_body }.

(** [results[e] = c] on an object created by [{}]: the key [__proto__]
    reaches the setter of [Object.prototype], which ignores a string;
    every other key becomes (or overwrites) an own property. *)
Definition assign (results : gmap string classification) (e : string)
    (c : classification) : gmap string classification :=
  if String.eqb e "__proto__" then results else <[e := c]> results.

(** The loop [for (const e of emails)] from its [k]-th turn on.  Each
    turn runs against the state of the outside world at that time,
    [envs k]; [verifyEmail] is called with its default sender. *)
Fixpoint verify_all (envs : nat -> Env) (k : nat) (emails : list string)
    (results : gmap string classification)
  : M (gmap string classification) :=
  match emails with
  | [] => ret results
  | e :: rest =>
      let* c := verifyEmail (envs k) e default_from in
      verify_all envs (S k) rest (assign results e c)
  end.

Definition post_verify (envs : nat -> Env) (b : body_email)
  : M http_response :=
  match b with
  | NotAnArray => ret (Response 400 (ErrorBody "email array required"))
  | EmailArray emails =>
      let* results := verify_all envs 0 emails ∅ in
      ret (Response 200 (ResultsBody results))
  end.

(** ** Vocabulary of the statements *)

(** A reply code that ends the host loop: one of the three ranges the
    loop tests. *)
Definition conclusive (c : Z) : bool :=
  in_range 200 300 c || in_range 400 600 c.

(** The hosts of [pre] are probed one after the other for [email],
    starting with connection number [n]; every session settles, with a
    reply code that satisfies [P]. *)
Fixpoint probes_satisfy (P : Z -> bool) (env : Env) (from email : string)
    (n : nat) (pre : list string) : Prop :=
  match pre with
  | [] => True
  | h :: pre' =>
      (exists r, session_result env n h from email = Some r
                 /\ P (code (rcpt r)) = true)
      /\ probes_satisfy P env from email (S n) pre'
  end.

(** Two strings differ only in the case of their letters. *)
Definition differs_only_in_case (a b : string) : Prop :=
  a <> b /\ toLowerCase a = toLowerCase b.

(** Every call of [resolve] in an action log comes after the call of
    [socket.end()]. *)
Definition released_before_resolved (acts : list action) : Prop :=
  forall pre r post, acts = pre ++ Resolve r :: post -> SocketEnd ∈ pre.

Fixpoint count_ends (acts : list action) : nat :=
  match acts with
  | [] => 0
  | SocketEnd :: l => S (count_ends l)
  | _ :: l => count_ends l
  end.

(** What a settled promise of a session with host [h] may hold: a
    sentinel with code 0, or a reply the parser produced and the
    session took. *)
Definition well_formed_result (h : string) (r : probe_result) : Prop :=
  host r = h
  /\ (code (rcpt r) = 0 \/ exists buf, usable buf = Some (rcpt r)).

(** What holds of a session between two callbacks. *)
Record Inv (h : string) (s : session) : Prop := {
  inv_timer : timer s = true <-> settled s = None;
  inv_closed : settled s <> None -> closed s = true;
  inv_ends : count_ends (actions s) = if closed s then 1%nat else 0%nat;
  inv_end_logged : closed s = true -> SocketEnd ∈ actions s;
  inv_order : released_before_resolved (actions s);
  inv_result : forall r, settled s = Some r -> well_formed_result h r;
  inv_resolved : forall r, settled s = Some r -> Resolve r ∈ actions s;
  inv_unresolved : settled s = None -> forall r, Resolve r ∉ actions s
}.

(** Unfolds the resolver down to the environment's answers. *)
Ltac run_resolver :=
  unfold getMxHosts, address_fallback, resolveMx, resolve4, resolve6,
    try_catch, bind, emit, await_lookup, ret; simpl.

(** Runs the next callback of a session whose state is written out,
    down to the test of the buffer; [unfold_run] is the equation of
    [run] on a non-empty list. *)
Ltac session_step_by unfold_run :=
  rewrite unfold_run;
  unfold step, waitGreeting, waitResp;
  cbn -[usable Z.sub Z.gtb run command_text];
  repeat match goal with
         | |- context ["" +:+ ?x] => change ("" +:+ x) with x
         end.

(** Ascending priorities, as [Sorted] spells it. *)
Definition by_priority (a b : mx_record) : Prop := priority a <= priority b.

(** The number of occurrences of a character in a string. *)
Fixpoint count_char (c : ascii) (s : string) : nat :=
  match s with
  | EmptyString => 0
  | String c' s' =>
      if Ascii.eqb c' c then S (count_char c s') else count_char c s'
  end.

(** The data of the [socket.write] calls of an action log, in order. *)
Fixpoint writes (acts : list action) : list string :=
  match acts with
  | [] => []
  | SocketWrite data :: l => data :: writes l
  | _ :: l => writes l
  end.

(** Everything a session can write, in the order of the handler. *)
Definition command_script (from to : string) : list string :=
  [ command_text from to EHLO +:+ CRLF;
    command_text from to MAIL_FROM +:+ CRLF;
    command_text from to RCPT_TO +:+ CRLF;
    "RSET" +:+ CRLF;
    "QUIT" +:+ CRLF ].

(** How many lines of the script have been written when the handler is
    suspended at a stage. *)
Definition written_at (st : stage) (n : nat) : Prop :=
  match st with
  | Connecting | AwaitingGreeting => n = 0%nat
  | Writing EHLO | AwaitingReply EHLO _ => n = 1%nat
  | Writing MAIL_FROM | AwaitingReply MAIL_FROM _ => n = 2%nat
  | Writing RCPT_TO | AwaitingReply RCPT_TO _ => n = 3%nat
  | Finished => n = 2%nat \/ n = 5%nat
  end.

(** What holds of the writes of a session between two callbacks. *)
Record Script (h from to : string) (s : session) : Prop := {
  script_prefix :
    exists n, written_at (at_stage s) n
              /\ writes (actions s) = take n (command_script from to);
  script_coded :
    forall r, settled s = Some r -> code (rcpt r) <> 0 ->
      at_stage s = Finished
      /\ writes (actions s) = command_script from to
}.

(** The connections of a trace. *)
Definition is_connect (e : effect) : bool :=
  match e with Connect _ _ _ => true | _ => false end.

(** Some listed host accepted the address with a code from 200 to 299,
    and the probe for the generated recipient that followed on the
    same host was in that range or not, as [again] says. *)
Definition accepted (env : Env) (from email domain : string)
    (hosts : list string) (again : bool) : Prop :=
  exists n h r1 r2,
    h ∈ hosts
    /\ session_result env n h from email = Some r1
    /\ in_range 200 300 (code (rcpt r1)) = true
    /\ session_result env (S n) h from (fake_email env domain) = Some r2
    /\ in_range 200 300 (code (rcpt r2)) = again.

(** Some listed host rejected the address with a code from 500 to 599. *)
Definition rejected (env : Env) (from email : string) (hosts : list string)
  : Prop :=
  exists n h r,
    h ∈ hosts
    /\ session_result env n h from email = Some r
    /\ in_range 500 600 (code (rcpt r)) = true.

(** A connection on port 25 to a listed host, for the address or for
    the generated recipient. *)
Definition probe_of (env : Env) (email domain : string) (hosts : list string)
    (e : effect) : Prop :=
  exists h to,
    e = Connect h 25 to /\ h ∈ hosts
    /\ (to = email \/ to = fake_email env domain).

(** ** Simulated environments

    Hosts and resolvers to run the definitions on. *)

(** A server that greets, answers EHLO on two lines and MAIL FROM on
    one, and answers RCPT TO with [rcpt_reply]; the session timer's
    callback is last in the queue. *)
Definition dialogue (rcpt_reply : string) : list event :=
  [ EvConnect;
    EvData ("220 mx.example.org ESMTP" +:+ CRLF); EvTick 50;
    EvWritten 60 None;
    EvData ("250-mx.example.org" +:+ CRLF +:+ "250 PIPELINING" +:+ CRLF);
    EvTick 110;
    EvWritten 120 None; EvData ("250 2.1.0 Ok" +:+ CRLF); EvTick 170;
    EvWritten 180 None; EvData (rcpt_reply +:+ CRLF); EvTick 230;
    EvTimer ].

(** A host that accepts the connection and then stays silent. *)
Definition silence : list event := [EvConnect; EvTick 50; EvTick 100; EvTimer].

(** A host that refuses the connection. *)
Definition refusal : list event := [EvError "connect ECONNREFUSED"; EvTimer].

Definition sim_env (mx : string -> lookup mx_record)
    (a a6 : string -> lookup string)
    (sessions : nat -> string -> string -> list event) : Env :=
  {| dns_mx := mx; dns_a := a; dns_aaaa := a6;
     session_events := sessions;
     Date_now := 1700000000000; random_1000 := 42 |}.

Definition nxdomain {A} : string -> lookup A := fun _ => Failed "ENOTFOUND".

(** One mail exchanger that answers RCPT TO for [real] with
    [real_reply] and for any other recipient with [other_reply]. *)
Definition one_host_env (real real_reply other_reply : string) : Env :=
  sim_env (fun _ => Resolved [Mx "mx.example.org." 10]) nxdomain nxdomain
    (fun _ _ to =>
       if String.eqb to real then dialogue real_reply
       else dialogue other_reply).

(** Two mail exchangers, listed against their priority order; the
    preferred one behaves as [first], the other one answers RCPT TO as
    in [one_host_env]. *)
Definition two_hosts_env (first : list event)
    (real real_reply other_reply : string) : Env :=
  sim_env
    (fun _ => Resolved [Mx "mx2.example.org." 20; Mx "mx1.example.org." 10])
    nxdomain nxdomain
    (fun _ h to =>
       if String.eqb h "mx1.example.org" then first
       else if String.eqb to real then dialogue real_reply
       else dialogue other_reply).

(** The mail-exchange lookup resolves to an empty array although the
    domain has an address record. *)
Definition empty_mx_env : Env :=
  sim_env (fun _ => Resolved []) (fun _ => Resolved ["192.0.2.1"]) nxdomain
    (fun _ _ _ => silence).

(** No mail exchanger and no IPv4 address, but an IPv6 address. *)
Definition ipv6_only_env : Env :=
  sim_env nxdomain nxdomain (fun _ => Resolved ["2001:db8::1"])
    (fun _ _ _ => silence).

(** Nothing resolves. *)
Definition no_dns_env : Env :=
  sim_env nxdomain nxdomain nxdomain (fun _ _ _ => silence).

(** * Properties *)

(** ** Response parser *)

Lemma digit_value_range c :
  Chars.is_digit c = true -> 0 <= Chars.digit_value c <= 9.
Proof.
  unfold Chars.is_digit, Chars.digit_value.
  rewrite andb_true_iff, !Z.leb_le. lia.
Qed.

Lemma match_line_range l c : match_line l = Some c -> 0 <= c <= 999.
Proof.
  destruct l as [|d1 [|d2 [|d3 [|sep rest]]]]; simpl; try discriminate.
  destruct (Chars.is_digit d1) eqn:H1; simpl; [|discriminate].
  destruct (Chars.is_digit d2) eqn:H2; simpl; [|discriminate].
  destruct (Chars.is_digit d3) eqn:H3; simpl; [|discriminate].
  destruct (_ || _); [|discriminate].
  intros [= <-].
  apply digit_value_range in H1, H2, H3. lia.
Qed.

(** A line matches exactly when it starts with three digits followed by
    a space or by a hyphen. *)
Lemma match_line_spec l c :
  match_line l = Some c <->
  exists d1 d2 d3 sep rest,
    l = String d1 (String d2 (String d3 (String sep rest)))
    /\ Chars.is_digit d1 = true /\ Chars.is_digit d2 = true
    /\ Chars.is_digit d3 = true
    /\ (sep = " "%char \/ sep = "-"%char)
    /\ c = 100 * Chars.digit_value d1 + 10 * Chars.digit_value d2
           + Chars.digit_value d3.
Proof.
  split.
  - destruct l as [|d1 [|d2 [|d3 [|sep rest]]]]; simpl; try discriminate.
    destruct (Chars.is_digit d1) eqn:H1; simpl; [|discriminate].
    destruct (Chars.is_digit d2) eqn:H2; simpl; [|discriminate].
    destruct (Chars.is_digit d3) eqn:H3; simpl; [|discriminate].
    destruct (Ascii.eqb sep " ") eqn:Hs; simpl.
    + intros [= <-]. apply Ascii.eqb_eq in Hs.
      exists d1, d2, d3, sep, rest. auto 10.
    + destruct (Ascii.eqb sep "-") eqn:Hh; [|discriminate].
      intros [= <-]. apply Ascii.eqb_eq in Hh.
      exists d1, d2, d3, sep, rest. auto 10.
  - intros (d1 & d2 & d3 & sep & rest & -> & H1 & H2 & H3 & Hsep & ->).
    simpl. rewrite H1, H2, H3. simpl.
    destruct Hsep as [-> | ->]; reflexivity.
Qed.

Lemma elem_of_rev_iff {A} (x : A) (l : list A) : x ∈ rev l <-> x ∈ l.
Proof. rewrite !list_elem_of_In. symmetry. apply in_rev. Qed.

Lemma scan_back_range ls c : scan_back ls = Some c -> 0 <= c <= 999.
Proof.
  induction ls as [|l ls IH]; simpl; [discriminate|].
  destruct (match_line l) eqn:Hl; [|exact IH].
  intros [= <-]. eapply match_line_range, Hl.
Qed.

Lemma scan_back_None ls :
  scan_back ls = None <-> (forall l, l ∈ ls -> match_line l = None).
Proof.
  induction ls as [|l ls IH]; simpl.
  - split; [|reflexivity]. intros _ l Hl. inversion Hl.
  - destruct (match_line l) eqn:Hl.
    + split; [discriminate|]. intros H.
      rewrite H in Hl by left. discriminate.
    + rewrite IH. split.
      * intros H l' Hl'. apply elem_of_cons in Hl' as [-> | Hl']; auto.
      * intros H l' Hl'. apply H. by right.
Qed.

Lemma parseSMTPResponse_range text r :
  parseSMTPResponse text = Some r -> 0 <= code r <= 999.
Proof.
  unfold parseSMTPResponse.
  destruct (scan_back _) eqn:Hs; [|discriminate].
  intros [= <-]. simpl. eapply scan_back_range, Hs.
Qed.

Lemma parseSMTPResponse_None text :
  parseSMTPResponse text = None <->
  (forall l, l ∈ split_lines text -> match_line l = None).
Proof.
  unfold parseSMTPResponse.
  destruct (scan_back _) eqn:Hs.
  - split; [discriminate|]. intros H. exfalso.
    assert (Hn : scan_back
                   (rev (filter (fun l => nonempty l = true) (split_lines text)))
                 = None).
    { apply scan_back_None. intros l Hl. apply H.
      rewrite elem_of_rev_iff in Hl.
      by apply list_elem_of_filter in Hl as [_ Hl]. }
    congruence.
  - split; [|reflexivity]. intros _ l Hl.
    destruct (nonempty l) eqn:Hne.
    + rewrite scan_back_None in Hs. apply Hs.
      rewrite elem_of_rev_iff. apply list_elem_of_filter. done.
    + by destruct l.
Qed.

Lemma usable_range buf r : usable buf = Some r -> 1 <= code r <= 999.
Proof.
  unfold usable.
  destruct (parseSMTPResponse buf) as [p|] eqn:Hp; [|discriminate].
  destruct (code p =? 0) eqn:Hc; [discriminate|].
  intros [= <-]. apply parseSMTPResponse_range in Hp.
  apply Z.eqb_neq in Hc. lia.
Qed.

(** C4, as claimed (refuted): a buffer that holds only the continuation
    line ["250-line one\r\n"] is not reported as incomplete; the parser
    returns a reply for it. *)
Lemma continuation_line_is_a_match :
  parseSMTPResponse ("250-line one" +:+ CRLF) <> None.
Proof. vm_compute. discriminate. Qed.

(** C4, amended: on ["250-line one\r\n250 line two\r\n"] the parser
    returns code 250 with the two lines joined by a line feed; on the
    continuation line alone it also returns code 250, because the
    hyphen is accepted after the digits like the space; it returns no
    match exactly when no line of the buffer starts with three digits
    followed by a space or a hyphen. *)
Theorem parser_accepts_continuation_lines :
  parseSMTPResponse ("250-line one" +:+ CRLF +:+ "250 line two" +:+ CRLF)
    = Some (Reply 250 ("250-line one" +:+ String Chars.LF "250 line two"))
  /\ parseSMTPResponse ("250-line one" +:+ CRLF)
     = Some (Reply 250 "250-line one")
  /\ (forall text,
        parseSMTPResponse text = None <->
        (forall l, l ∈ split_lines text ->
           ~ exists d1 d2 d3 sep rest,
               l = String d1 (String d2 (String d3 (String sep rest)))
               /\ Chars.is_digit d1 = true /\ Chars.is_digit d2 = true
               /\ Chars.is_digit d3 = true
               /\ (sep = " "%char \/ sep = "-"%char))).
Proof.
  split; [vm_compute; reflexivity|].
  split; [vm_compute; reflexivity|].
  intros text. rewrite parseSMTPResponse_None.
  split; intros H l Hl.
  - intros (d1 & d2 & d3 & sep & rest & Heq & H1 & H2 & H3 & Hsep).
    specialize (H l Hl).
    assert (Hm : match_line l
                 = Some (100 * Chars.digit_value d1
                         + 10 * Chars.digit_value d2
                         + Chars.digit_value d3)).
    { apply match_line_spec. exists d1, d2, d3, sep, rest. auto 10. }
    congruence.
  - destruct (match_line l) as [c|] eqn:Hm; [|reflexivity].
    exfalso. apply (H l Hl).
    apply match_line_spec in Hm
      as (d1 & d2 & d3 & sep & rest & Heq & H1 & H2 & H3 & Hsep & _).
    exists d1, d2, d3, sep, rest. auto 10.
Qed.

(** The buffer of C4 has no complete reply while only an unterminated
    fragment of the first line has arrived. *)
Lemma parser_accepts_continuation_lines_witness :
  parseSMTPResponse "25" = None.
Proof.
  destruct parser_accepts_continuation_lines as (_ & _ & H).
  apply H. intros l Hl.
  intros (d1 & d2 & d3 & sep & rest & Heq & _).
  vm_compute in Hl.
  apply list_elem_of_singleton in Hl. subst l. discriminate.
Defined.

(** ** Resolver *)

Lemma insert_by_priority_perm m l :
  insert_by_priority m l ≡ₚ m :: l.
Proof.
  induction l as [|x l IH]; simpl; [done|].
  destruct (priority m <=? priority x); [done|].
  rewrite IH. apply perm_swap.
Qed.

Lemma sort_by_priority_perm l : sort_by_priority l ≡ₚ l.
Proof.
  induction l as [|m l IH]; simpl; [done|].
  rewrite insert_by_priority_perm. by rewrite IH.
Qed.

Lemma insert_by_priority_sorted m l :
  Sorted by_priority l -> Sorted by_priority (insert_by_priority m l).
Proof.
  induction l as [|x l IH]; simpl; intros Hs.
  - repeat constructor.
  - destruct (priority m <=? priority x) eqn:Hle.
    + apply Z.leb_le in Hle. constructor; [done|]. by constructor.
    + apply Z.leb_gt in Hle.
      apply Sorted_inv in Hs as [Hs Hhd].
      constructor; [by apply IH|].
      destruct l as [|y l]; simpl.
      * constructor. unfold by_priority. lia.
      * destruct (priority m <=? priority y).
        -- constructor. unfold by_priority. lia.
        -- constructor. by apply HdRel_inv in Hhd.
Qed.

Lemma sort_by_priority_sorted l : Sorted by_priority (sort_by_priority l).
Proof.
  induction l as [|m l IH]; simpl; [constructor|].
  by apply insert_by_priority_sorted.
Qed.

(** The sort is stable: the records of one priority come out in the
    order they came in. *)
Lemma insert_by_priority_stable p m l :
  Sorted by_priority l ->
  filter (fun x => priority x = p) (insert_by_priority m l)
  = filter (fun x => priority x = p) (m :: l).
Proof.
  induction l as [|x l IH]; simpl; intros Hs; [done|].
  destruct (priority m <=? priority x) eqn:Hle; [done|].
  apply Z.leb_gt in Hle.
  apply Sorted_inv in Hs as [Hs _].
  rewrite (filter_cons _ x), IH by done.
  rewrite !filter_cons.
  destruct (decide (priority m = p)), (decide (priority x = p)); try done.
  lia.
Qed.

Lemma sort_by_priority_stable p l :
  filter (fun x => priority x = p) (sort_by_priority l)
  = filter (fun x => priority x = p) l.
Proof.
  induction l as [|m l IH]; simpl; [done|].
  rewrite insert_by_priority_stable by apply sort_by_priority_sorted.
  rewrite !filter_cons. by rewrite IH.
Qed.

Lemma strip_trailing_dot_snoc s :
  strip_trailing_dot (s +:+ ".") = s.
Proof.
  induction s as [|c s IH]; simpl; [done|].
  rewrite IH. by destruct s.
Qed.

Lemma strip_trailing_dot_other s c :
  c <> "."%char ->
  strip_trailing_dot (s +:+ String c "") = s +:+ String c "".
Proof.
  intros Hc. induction s as [|c' s IH]; simpl.
  - apply Ascii.eqb_neq in Hc. by rewrite Hc.
  - rewrite IH. by destruct s.
Qed.

Lemma getMxHosts_mx env domain w mx :
  dns_mx env domain = Resolved mx -> mx <> [] ->
  getMxHosts env domain w
  = (Returned (map (fun m => strip_trailing_dot (exchange m))
                   (sort_by_priority mx)),
     World (trace w ++ [DnsMx domain]) (conns w)).
Proof.
  intros Hmx Hne. run_resolver. rewrite Hmx.
  destruct mx; [done|reflexivity].
Qed.

Lemma getMxHosts_mx_empty env domain w :
  dns_mx env domain = Resolved [] ->
  getMxHosts env domain w
  = (Returned [], World (trace w ++ [DnsMx domain]) (conns w)).
Proof. intros Hmx. run_resolver. by rewrite Hmx. Qed.

Lemma getMxHosts_a env domain w e a :
  dns_mx env domain = Failed e -> dns_a env domain = Resolved a -> a <> [] ->
  getMxHosts env domain w
  = (Returned [domain],
     World (trace w ++ [DnsMx domain] ++ [DnsA domain]) (conns w)).
Proof.
  intros Hmx Ha Hne. run_resolver. rewrite Hmx, Ha.
  destruct a; [done|]. simpl. by rewrite <- app_assoc.
Qed.

Lemma getMxHosts_aaaa env domain w e a6 :
  dns_mx env domain = Failed e -> dns_a env domain = Resolved [] ->
  dns_aaaa env domain = Resolved a6 -> a6 <> [] ->
  getMxHosts env domain w
  = (Returned [domain],
     World (trace w ++ [DnsMx domain] ++ [DnsA domain] ++ [DnsAAAA domain])
           (conns w)).
Proof.
  intros Hmx Ha Ha6 Hne. run_resolver. rewrite Hmx, Ha. simpl. rewrite Ha6.
  destruct a6; [done|]. simpl. by rewrite <- !app_assoc.
Qed.

Lemma getMxHosts_all_fail env domain w e e4 e6 :
  dns_mx env domain = Failed e -> dns_a env domain = Failed e4 ->
  dns_aaaa env domain = Failed e6 ->
  (getMxHosts env domain w).1 = Returned [].
Proof. intros Hmx Ha Ha6. run_resolver. by rewrite Hmx, Ha. Qed.

(** The resolver never throws and never hangs; it opens no connection
    and its first effect is the mail-exchange query. *)
Lemma getMxHosts_returns env domain w :
  exists hosts more,
    getMxHosts env domain w
    = (Returned hosts, World (trace w ++ DnsMx domain :: more) (conns w)).
Proof.
  run_resolver.
  destruct (dns_mx env domain) as [mx|e]; simpl.
  - destruct mx; simpl; eexists _, []; reflexivity.
  - destruct (dns_a env domain) as [a|e4]; simpl.
    + destruct a; simpl.
      * destruct (dns_aaaa env domain) as [a6|e6]; simpl.
        -- destruct a6; simpl; eexists _, [_; _];
             rewrite <- !app_assoc; reflexivity.
        -- eexists _, [_; _]; rewrite <- !app_assoc; reflexivity.
      * eexists _, [_]; rewrite <- !app_assoc; reflexivity.
    + eexists _, [_]; rewrite <- !app_assoc; reflexivity.
Qed.

(** C5, as claimed (refuted): when the mail-exchange lookup resolves to
    no record there is no fallback; the resolver returns the empty list
    although the IPv4 lookup of the domain would resolve, and no lookup
    has failed. *)
Lemma no_fallback_when_mx_is_empty :
  dns_a empty_mx_env "example.org" = Resolved ["192.0.2.1"]
  /\ getMxHosts empty_mx_env "example.org" world0
     = (Returned [], World [DnsMx "example.org"] 0).
Proof. split; reflexivity. Qed.

(** The address fallback is one [try] block: when the IPv4 lookup
    rejects, the IPv6 lookup is not made. *)
Lemma ipv6_lookup_skipped_when_ipv4_rejects :
  dns_aaaa ipv6_only_env "example.org" = Resolved ["2001:db8::1"]
  /\ getMxHosts ipv6_only_env "example.org" world0
     = (Returned [], World [DnsMx "example.org"; DnsA "example.org"] 0).
Proof. split; reflexivity. Qed.

(** C5, amended: when the mail-exchange lookup resolves to one or more
    records, the resolver returns their hostnames in ascending order of
    priority, each with a trailing dot removed (one dot, and nothing
    when the name ends otherwise); when it resolves to no
    record, the resolver returns the empty list with no further lookup;
    when it fails, the resolver returns [[domain]] if the IPv4 lookup
    resolves to an address, or if the IPv4 lookup resolves to none and
    the IPv6 lookup resolves to an address; when all three lookups fail
    it returns the empty list. *)
Theorem resolver_cases env domain w :
  (forall mx, dns_mx env domain = Resolved mx -> mx <> [] ->
     getMxHosts env domain w
     = (Returned (map (fun m => strip_trailing_dot (exchange m))
                      (sort_by_priority mx)),
        World (trace w ++ [DnsMx domain]) (conns w))
     /\ Sorted by_priority (sort_by_priority mx)
     /\ sort_by_priority mx ≡ₚ mx
     /\ (forall s, strip_trailing_dot (s +:+ ".") = s)
     /\ (forall s c, c <> "."%char ->
           strip_trailing_dot (s +:+ String c "") = s +:+ String c ""))
  /\ (dns_mx env domain = Resolved [] ->
      getMxHosts env domain w
      = (Returned [], World (trace w ++ [DnsMx domain]) (conns w)))
  /\ (forall e a, dns_mx env domain = Failed e ->
        dns_a env domain = Resolved a -> a <> [] ->
        (getMxHosts env domain w).1 = Returned [domain])
  /\ (forall e a6, dns_mx env domain = Failed e ->
        dns_a env domain = Resolved [] ->
        dns_aaaa env domain = Resolved a6 -> a6 <> [] ->
        (getMxHosts env domain w).1 = Returned [domain])
  /\ (forall e e4 e6, dns_mx env domain = Failed e ->
        dns_a env domain = Failed e4 -> dns_aaaa env domain = Failed e6 ->
        (getMxHosts env domain w).1 = Returned []).
Proof.
  repeat split.
  - by apply getMxHosts_mx.
  - apply sort_by_priority_sorted.
  - apply sort_by_priority_perm.
  - apply strip_trailing_dot_snoc.
  - apply strip_trailing_dot_other.
  - apply getMxHosts_mx_empty.
  - intros e a Hmx Ha Hne. by erewrite getMxHosts_a.
  - intros e a6 Hmx Ha Ha6 Hne. by erewrite getMxHosts_aaaa.
  - apply getMxHosts_all_fail.
Qed.

(** Two exchangers listed against their priorities come out in
    priority order, without their final dots. *)
Lemma resolver_cases_witness :
  getMxHosts (two_hosts_env silence "" "" "") "example.org" world0
  = (Returned ["mx1.example.org"; "mx2.example.org"],
     World [DnsMx "example.org"] 0).
Proof.
  destruct (resolver_cases (two_hosts_env silence "" "" "") "example.org"
              world0) as (H & _).
  destruct (H [Mx "mx2.example.org." 20; Mx "mx1.example.org." 10])
    as (Heq & _); [reflexivity|discriminate|].
  exact Heq.
Defined.

(** ** Probe session *)

Lemma count_ends_app l1 l2 :
  count_ends (l1 ++ l2) = (count_ends l1 + count_ends l2)%nat.
Proof.
  induction l1 as [|a l1 IH]; simpl; [done|].
  destruct a; simpl; lia.
Qed.

Lemma snoc_eq_middle {A} (l pre post : list A) (a x : A) :
  l ++ [a] = pre ++ x :: post ->
  (post = [] /\ pre = l /\ a = x)
  \/ (exists post', post = post' ++ [a] /\ l = pre ++ x :: post').
Proof.
  destruct post as [|y post _] using rev_ind; intros Heq.
  - left. apply app_inj_tail in Heq as [-> ->]. done.
  - right. exists post.
    change (pre ++ x :: post ++ [y]) with (pre ++ (x :: post) ++ [y]) in Heq.
    rewrite app_assoc in Heq.
    apply app_inj_tail in Heq as [-> ->]. done.
Qed.

Lemma released_snoc_other acts a :
  released_before_resolved acts -> (forall r, a <> Resolve r) ->
  released_before_resolved (acts ++ [a]).
Proof.
  intros Hrel Ha pre r post Heq.
  apply snoc_eq_middle in Heq as [(_ & _ & ->) | (post' & _ & ->)].
  - by destruct (Ha r).
  - by eapply Hrel.
Qed.

Lemma released_snoc_resolve acts r :
  released_before_resolved acts -> SocketEnd ∈ acts ->
  released_before_resolved (acts ++ [Resolve r]).
Proof.
  intros Hrel Hend pre r' post Heq.
  apply snoc_eq_middle in Heq as [(_ & -> & _) | (post' & _ & ->)].
  - done.
  - by eapply Hrel.
Qed.

Section SessionFacts.

Variables (h from to : string).

Lemma Inv_session0 : Inv h session0.
Proof.
  split; simpl; try done.
  - intros pre r post Heq. by destruct pre.
  - intros _ r Hr. inversion Hr.
Qed.

Lemma Inv_set_buffer b s : Inv h s -> Inv h (set_buffer b s).
Proof. intros []. by split. Qed.

Lemma Inv_set_stage st s : Inv h s -> Inv h (set_stage st s).
Proof. intros []. by split. Qed.

Lemma Inv_write data s : Inv h s -> Inv h (do_action (SocketWrite data) s).
Proof.
  intros []. split; simpl; try done.
  - rewrite count_ends_app. simpl. lia.
  - intros Hc. apply elem_of_app. left. auto.
  - by apply released_snoc_other.
  - intros r Hr. apply elem_of_app. left. auto.
  - intros Hn r Hr. apply elem_of_app in Hr as [Hr | Hr].
    + by eapply inv_unresolved0.
    + apply list_elem_of_singleton in Hr. discriminate.
Qed.

(** Every exit of the session has this shape: cancel the timer,
    release the socket, resolve. *)
Lemma Inv_conclude r s :
  Inv h s -> well_formed_result h r ->
  Inv h (resolve r (cleanup (clearTimeout s))).
Proof.
  intros [Ht Hc He Hl Ho Hr Hres Hun] Hwf.
  destruct s as [b cl tm st stg acts]; simpl in *.
  unfold resolve, cleanup, clearTimeout; simpl.
  destruct cl; simpl.
  - destruct st as [r0|]; simpl.
    + split; simpl; try done.
      * rewrite count_ends_app. simpl. lia.
      * intros _. apply elem_of_app. left. auto.
      * apply released_snoc_resolve; auto.
      * intros r1 Hr1. apply elem_of_app. left. auto.
    + split; simpl; try done.
      * rewrite count_ends_app. simpl. lia.
      * intros _. apply elem_of_app. left. auto.
      * apply released_snoc_resolve; auto.
      * by intros r1 [= <-].
      * intros r1 [= <-]. apply elem_of_app. right. by left.
  - destruct st as [r0|]; simpl.
    + by specialize (Hc ltac:(done)).
    + split; simpl; try done.
      * rewrite !count_ends_app. simpl. lia.
      * intros _. apply elem_of_app. left. apply elem_of_app. right. by left.
      * apply released_snoc_resolve.
        -- by apply released_snoc_other.
        -- apply elem_of_app. right. by left.
      * by intros r1 [= <-].
      * intros r1 [= <-]. apply elem_of_app. right. by left.
Qed.

Lemma sentinel_well_formed m :
  well_formed_result h (ProbeResult h (Reply 0 m)).
Proof. split; simpl; auto. Qed.

Lemma usable_well_formed buf p :
  usable buf = Some p -> well_formed_result h (ProbeResult h p).
Proof. intros Hp. split; simpl; eauto. Qed.

Lemma Inv_sendCmd c s : Inv h s -> Inv h (sendCmd from to c s).
Proof.
  intros Hs. unfold sendCmd.
  by apply Inv_set_stage, Inv_write, Inv_set_buffer.
Qed.

Lemma Inv_finish r s :
  Inv h s -> well_formed_result h (ProbeResult h r) -> Inv h (finish h r s).
Proof.
  intros Hs Hr. unfold finish.
  apply Inv_set_stage, Inv_conclude; [|done].
  by do 2 apply Inv_write.
Qed.

Lemma Inv_protocol_error e s : Inv h s -> Inv h (protocol_error h e s).
Proof.
  intros Hs. unfold protocol_error.
  apply Inv_set_stage, Inv_conclude; [done|apply sentinel_well_formed].
Qed.

Lemma Inv_command_done c r s :
  Inv h s ->
  (forall p, r = inl p -> exists buf, usable buf = Some p) ->
  Inv h (command_done h from to c r s).
Proof.
  intros Hs Hr. destruct c, r as [p|e]; simpl;
    auto using Inv_sendCmd, Inv_protocol_error.
  - destruct (Hr p eq_refl) as [buf Hbuf].
    eapply Inv_finish, usable_well_formed; done.
  - apply Inv_finish; [done|apply sentinel_well_formed].
Qed.

Lemma Inv_waitGreeting s : Inv h s -> Inv h (waitGreeting from to s).
Proof.
  intros Hs. unfold waitGreeting.
  destruct (usable (buffer s)); auto using Inv_sendCmd, Inv_set_stage.
Qed.

Lemma Inv_waitResp c start now s :
  Inv h s -> Inv h (waitResp h from to c start now s).
Proof.
  intros Hs. unfold waitResp.
  destruct (usable (buffer s)) as [p|] eqn:Hp.
  - apply Inv_command_done; [done|]. intros ? [= <-]. eauto.
  - destruct (now - start >? TIMEOUT).
    + apply Inv_command_done; [done|]. discriminate.
    + by apply Inv_set_stage.
Qed.

Lemma Inv_step s ev : Inv h s -> Inv h (step h from to s ev).
Proof.
  intros Hs. destruct ev as [|chunk|msg| |now|now err]; simpl.
  - destruct (at_stage s); auto using Inv_waitGreeting.
  - by apply Inv_set_buffer.
  - apply Inv_conclude; [done|apply sentinel_well_formed].
  - destruct (timer s); [|done].
    apply Inv_conclude; [done|apply sentinel_well_formed].
  - destruct (at_stage s); auto using Inv_waitGreeting, Inv_waitResp.
  - destruct (at_stage s); try done.
    destruct err; [|by apply Inv_waitResp].
    apply Inv_command_done; [done|]. discriminate.
Qed.

Lemma Inv_run evs s : Inv h s -> Inv h (run h from to s evs).
Proof.
  revert s. induction evs as [|ev evs IH]; intros s Hs; simpl; [done|].
  apply IH. by apply Inv_step.
Qed.

End SessionFacts.

Section SessionRuns.

Variables (h from to : string).

Lemma run_app s evs1 evs2 :
  run h from to s (evs1 ++ evs2) = run h from to (run h from to s evs1) evs2.
Proof. apply foldl_app. Qed.

Lemma run_cons s ev evs :
  run h from to s (ev :: evs) = run h from to (step h from to s ev) evs.
Proof. reflexivity. Qed.

Lemma settled_resolve r s :
  settled (resolve r s)
  = match settled s with Some r0 => Some r0 | None => Some r end.
Proof. reflexivity. Qed.

Lemma settled_cleanup s : settled (cleanup s) = settled s.
Proof. unfold cleanup. by destruct (closed s). Qed.

Lemma settled_sendCmd c s : settled (sendCmd from to c s) = settled s.
Proof. reflexivity. Qed.

Lemma settled_finish r s :
  settled (finish h r s)
  = match settled s with
    | Some r0 => Some r0
    | None => Some (ProbeResult h r)
    end.
Proof. unfold finish. simpl. by rewrite settled_cleanup. Qed.

Lemma settled_protocol_error e s :
  settled (protocol_error h e s)
  = match settled s with
    | Some r0 => Some r0
    | None => Some (ProbeResult h (Reply 0 ("protocol_error: " +:+ e)))
    end.
Proof. unfold protocol_error. simpl. by rewrite settled_cleanup. Qed.

(** A promise keeps the first value it is resolved with. *)
Lemma settled_command_done c r s r0 :
  settled s = Some r0 -> settled (command_done h from to c r s) = Some r0.
Proof.
  intros Hs. destruct c, r; unfold command_done;
    rewrite ?settled_sendCmd, ?settled_finish, ?settled_protocol_error, ?Hs;
    done.
Qed.

Lemma settled_step s ev r0 :
  settled s = Some r0 -> settled (step h from to s ev) = Some r0.
Proof.
  intros Hs. destruct ev as [|chunk|msg| |now|now err]; unfold step.
  - destruct (at_stage s); try done. unfold waitGreeting.
    by destruct (usable (buffer s)).
  - done.
  - by rewrite settled_resolve, settled_cleanup; simpl; rewrite Hs.
  - destruct (timer s); [|done].
    by rewrite settled_resolve, settled_cleanup; simpl; rewrite Hs.
  - destruct (at_stage s); try done.
    + unfold waitGreeting. by destruct (usable (buffer s)).
    + unfold waitResp. destruct (usable (buffer s)).
      * by apply settled_command_done.
      * destruct (_ >? _); [by apply settled_command_done|done].
  - destruct (at_stage s); try done. destruct err.
    + by apply settled_command_done.
    + unfold waitResp. destruct (usable (buffer s)).
      * by apply settled_command_done.
      * destruct (_ >? _); [by apply settled_command_done|done].
Qed.

Lemma settled_run evs s r0 :
  settled s = Some r0 -> settled (run h from to s evs) = Some r0.
Proof.
  revert s. induction evs as [|ev evs IH]; intros s Hs; [done|].
  rewrite run_cons. by apply IH, settled_step.
Qed.

(** The session timer firing on an unsettled session settles it. *)
Lemma settled_timer s :
  timer s = true -> settled s = None ->
  settled (step h from to s EvTimer)
  = Some (ProbeResult h (Reply 0 "timeout")).
Proof.
  intros Ht Hs. unfold step. rewrite Ht.
  by rewrite settled_resolve, settled_cleanup; simpl; rewrite Hs.
Qed.

Lemma settled_error s msg :
  settled s = None ->
  settled (step h from to s (EvError msg))
  = Some (ProbeResult h (Reply 0 ("socket_error: " +:+ msg))).
Proof.
  intros Hs. unfold step.
  by rewrite settled_resolve, settled_cleanup; simpl; rewrite Hs.
Qed.

(** Once the timer's callback has been delivered the promise is
    settled, whatever else happens. *)
Lemma timer_settles evs :
  EvTimer ∈ evs -> is_Some (settled (run h from to session0 evs)).
Proof.
  intros Hin. apply list_elem_of_split in Hin as (evs1 & evs2 & ->).
  rewrite run_app, run_cons.
  pose proof (Inv_run h from to evs1 session0 (Inv_session0 h)) as HI.
  set (s := run h from to session0 evs1) in *.
  destruct (settled s) as [r0|] eqn:Hs.
  - exists r0. by apply settled_run, settled_step.
  - eexists. apply settled_run, settled_timer; [|done].
    by apply (inv_timer h s HI).
Qed.

End SessionRuns.

(** C8: if the session timer fires while it is armed, at whatever stage
    the session is, the promise holds the sentinel reply with code 0
    and message [timeout], and nothing that follows changes it; and
    whenever the promise is settled, on any sequence of callbacks, the
    socket has been ended, exactly once, and the call of [resolve]
    comes after the call of [socket.end()] in the session's actions. *)
Theorem session_timeout_and_release h from to :
  (forall evs1 evs2,
      timer (run h from to session0 evs1) = true ->
      settled (run h from to session0 (evs1 ++ EvTimer :: evs2))
      = Some (ProbeResult h (Reply 0 "timeout")))
  /\ (forall evs r,
        settled (run h from to session0 evs) = Some r ->
        closed (run h from to session0 evs) = true
        /\ count_ends (actions (run h from to session0 evs)) = 1%nat
        /\ Resolve r ∈ actions (run h from to session0 evs)
        /\ released_before_resolved (actions (run h from to session0 evs))).
Proof.
  split.
  - intros evs1 evs2 Ht.
    pose proof (Inv_run h from to evs1 session0 (Inv_session0 h)) as HI.
    rewrite run_app, run_cons.
    apply settled_run, settled_timer; [done|].
    by apply (inv_timer h _ HI).
  - intros evs r Hr.
    pose proof (Inv_run h from to evs session0 (Inv_session0 h)) as HI.
    assert (Hc : closed (run h from to session0 evs) = true).
    { apply (inv_closed h _ HI). by rewrite Hr. }
    repeat split.
    + done.
    + by rewrite (inv_ends h _ HI), Hc.
    + by apply (inv_resolved h _ HI).
    + apply (inv_order h _ HI).
Qed.

(** Four ways through a session: the dialogue runs to its end; the
    timer fires during the wait for the greeting; the socket fails; the
    write of MAIL FROM fails. *)
Lemma session_timeout_and_release_witness :
  settled (run "mx" "a@b" "c@d" session0
             ([EvConnect; EvTick 50] ++ EvTimer :: [EvTick 100]))
  = Some (ProbeResult "mx" (Reply 0 "timeout"))
  /\ closed (run "mx" "a@b" "c@d" session0 (dialogue "250 2.1.5 Ok")) = true
  /\ closed (run "mx" "a@b" "c@d" session0 refusal) = true
  /\ closed (run "mx" "a@b" "c@d" session0
               [EvConnect; EvData ("220 hi" +:+ CRLF); EvTick 50;
                EvWritten 60 None; EvData ("250 hi" +:+ CRLF); EvTick 110;
                EvWritten 120 (Some "write EPIPE")]) = true.
Proof.
  destruct (session_timeout_and_release "mx" "a@b" "c@d") as [Ha Hb].
  split; [apply Ha; reflexivity|].
  split; [|split].
  - eapply (Hb (dialogue "250 2.1.5 Ok")). reflexivity.
  - eapply (Hb refusal). reflexivity.
  - eapply Hb. reflexivity.
Defined.

(** C9, as claimed (refuted): the parser returns the value of any three
    digits, so a reply can carry a code above 599, and the code 0 can
    come from the parser (for the digits 000), not only from a
    sentinel; a session hands a code above 599 on to its caller. *)
Lemma reply_code_outside_0_599 :
  (exists r, parseSMTPResponse "999 x" = Some r /\ ~ (0 <= code r <= 599))
  /\ (exists r, parseSMTPResponse "000 x" = Some r /\ code r = 0)
  /\ (exists r, settled (run "mx" "a@b" "c@d" session0 (dialogue "999 x"))
                = Some r /\ ~ (0 <= code (rcpt r) <= 599)).
Proof.
  split; [|split].
  - exists (Reply 999 "999 x"). split; [reflexivity|]. simpl. lia.
  - exists (Reply 0 "000 x"). split; reflexivity.
  - exists (ProbeResult "mx" (Reply 999 "999 x")).
    split; [reflexivity|]. simpl. lia.
Qed.

(** C9, amended: every reply of the parser has a code between 0 and
    999, the value of the three digits of the matched line; the reply a
    session settles with is either a sentinel with code 0 or a reply of
    the parser that the session took, whose code is between 1 and 999;
    a reply of the parser with code 0 is never taken. *)
Theorem reply_codes :
  (forall text r, parseSMTPResponse text = Some r -> 0 <= code r <= 999)
  /\ (forall buf r, usable buf = Some r -> code r <> 0)
  /\ (forall h from to evs r,
        settled (run h from to session0 evs) = Some r ->
        host r = h
        /\ (code (rcpt r) = 0
            \/ (1 <= code (rcpt r) <= 999
                /\ exists buf, usable buf = Some (rcpt r)))).
Proof.
  split; [exact parseSMTPResponse_range|].
  split.
  - intros buf r Hr. apply usable_range in Hr. lia.
  - intros h from to evs r Hr.
    pose proof (Inv_run h from to evs session0 (Inv_session0 h)) as HI.
    destruct (inv_result h _ HI r Hr) as [Hh [H0 | [buf Hbuf]]].
    + auto.
    + split; [done|]. right. split; [|eauto].
      eapply usable_range, Hbuf.
Qed.

Lemma reply_codes_witness :
  0 <= 250 <= 999
  /\ (1 <= 550 <= 999
      /\ exists buf, usable buf = Some (Reply 550 "550 5.1.1 no such user")).
Proof.
  destruct reply_codes as (Hp & _ & Hs).
  split.
  - apply (Hp "250 Ok" (Reply 250 "250 Ok")). reflexivity.
  - destruct (Hs "mx" "a@b" "c@d" (dialogue "550 5.1.1 no such user")
                (ProbeResult "mx" (Reply 550 "550 5.1.1 no such user")))
      as [_ [H0 | H]]; [reflexivity|discriminate|exact H].
Defined.

(** ** Verification engine *)

Lemma in_range_spec lo hi c : in_range lo hi c = true <-> lo <= c < hi.
Proof. unfold in_range. rewrite andb_true_iff, Z.leb_le, Z.ltb_lt. done. Qed.

Lemma in_range_false lo hi c : in_range lo hi c = false <-> ~ (lo <= c < hi).
Proof. rewrite <- in_range_spec. by destruct (in_range lo hi c). Qed.

Lemma not_conclusive c :
  conclusive c = false ->
  in_range 200 300 c = false /\ in_range 500 600 c = false
  /\ in_range 400 500 c = false.
Proof.
  unfold conclusive. rewrite orb_false_iff, !in_range_false. lia.
Qed.

Lemma probes_satisfy_weaken (P Q : Z -> bool) env from email n pre :
  (forall c, P c = true -> Q c = true) ->
  probes_satisfy P env from email n pre ->
  probes_satisfy Q env from email n pre.
Proof.
  intros HPQ. revert n.
  induction pre as [|h pre IH]; intros n; simpl; [done|].
  intros [(r & Hr & HP) Hrest]. split; [eauto|by apply IH].
Qed.

(** One turn of the loop on a host whose reply is not conclusive. *)
Lemma probe_hosts_next env email domain from h rest w r :
  session_result env (conns w) h from email = Some r ->
  conclusive (code (rcpt r)) = false ->
  probe_hosts env email domain from (h :: rest) w
  = probe_hosts env email domain from rest
      (World (trace w ++ [Connect h 25 email]) (S (conns w))).
Proof.
  intros Hr Hc. apply not_conclusive in Hc as (H2 & H5 & H4).
  cbn [probe_hosts]. unfold bind at 1, smtpProbe at 1.
  rewrite Hr. cbv zeta.
  destruct (code (rcpt r) =? 0); [done|].
  by rewrite H2, H5, H4.
Qed.

Lemma probe_hosts_skip env email domain from pre rest w :
  probes_satisfy (fun c => negb (conclusive c)) env from email (conns w) pre ->
  probe_hosts env email domain from (pre ++ rest) w
  = probe_hosts env email domain from rest
      (World (trace w ++ map (fun x => Connect x 25 email) pre)
             (conns w + length pre)).
Proof.
  revert w. induction pre as [|h pre IH]; intros w;
    cbn [probes_satisfy app map length].
  - intros _. rewrite app_nil_r, Nat.add_0_r. by destruct w.
  - intros [(r & Hr & Hc) Hrest]. apply negb_true_iff in Hc.
    rewrite (probe_hosts_next _ _ _ _ _ _ _ r) by done.
    rewrite IH by done. cbn [trace conns].
    rewrite <- app_assoc, Nat.add_succ_r. done.
Qed.

(** The part of [verifyEmail] before the loop. *)
Lemma verifyEmail_probing env email from local domain w w1 hosts :
  split_on "@" email = [local; domain] ->
  includes roleBased (toLowerCase local) = false ->
  getMxHosts env domain w = (Returned hosts, w1) ->
  hosts <> [] ->
  has disposableDomains domain = false ->
  verifyEmail env email from w = probe_hosts env email domain from hosts w1.
Proof.
  intros Hsplit Hrole Hmx Hne Hdisp.
  unfold verifyEmail. rewrite Hsplit, Hrole.
  unfold bind at 1. rewrite Hmx.
  destruct hosts; [done|]. simpl. by rewrite Hdisp.
Qed.

(** The loop classifies with four of the eight values only. *)
Lemma probe_hosts_values env email domain from hosts w c w' :
  probe_hosts env email domain from hosts w = (Returned c, w') ->
  c = valid \/ c = catch_all \/ c = invalid \/ c = unknown.
Proof.
  revert w. induction hosts as [|h hosts IH]; intros w; cbn [probe_hosts].
  - intros [= <- _]. auto.
  - unfold bind at 1, smtpProbe at 1.
    destruct (session_result env (conns w) h from email) as [r|];
      [|discriminate].
    cbv zeta. destruct (code (rcpt r) =? 0); [apply IH|].
    destruct (in_range 200 300 (code (rcpt r))).
    + unfold bind, smtpProbe. cbn [conns].
      destruct (session_result _ _ _ _ _) as [r2|]; [|discriminate].
      destruct (in_range 200 300 (code (rcpt r2))); intros [= <- _]; auto.
    + destruct (in_range 500 600 (code (rcpt r))); [intros [= <- _]; auto|].
      destruct (in_range 400 500 (code (rcpt r))); [intros [= <- _]; auto|].
      apply IH.
Qed.

(** [disposable] is returned only for a domain of the table, after a
    resolution that produced at least one host. *)
Lemma disposable_only_after_resolution env email from w :
  (verifyEmail env email from w).1 = Returned disposable ->
  exists local domain hosts w1,
    split_on "@" email = [local; domain]
    /\ getMxHosts env domain w = (Returned hosts, w1)
    /\ hosts <> []
    /\ has disposableDomains domain = true.
Proof.
  unfold verifyEmail.
  destruct (split_on "@" email) as [|local [|domain [|]]] eqn:Hsplit;
    try discriminate.
  destruct (includes roleBased (toLowerCase local)); [discriminate|].
  unfold bind at 1.
  destruct (getMxHosts_returns env domain w) as (hosts & more & Hmx).
  rewrite Hmx. destruct hosts as [|h hosts]; [discriminate|].
  cbn [length Nat.eqb].
  destruct (has disposableDomains domain) eqn:Hd.
  - intros _. exists local, domain, (h :: hosts). eauto 10.
  - destruct (probe_hosts _ _ _ _ _ _) as [[c| |] w'] eqn:Hp;
      try discriminate.
    apply probe_hosts_values in Hp. simpl. intros [= ->].
    destruct Hp as [|[|[|]]]; discriminate.
Qed.

Lemma roleBased_lower_case entry :
  entry ∈ roleBased -> toLowerCase entry = entry.
Proof.
  unfold roleBased. intros H.
  repeat (apply elem_of_cons in H as [-> | H]; [reflexivity|]).
  inversion H.
Qed.

Lemma disposableDomains_lower_case entry :
  entry ∈ disposableDomains -> toLowerCase entry = entry.
Proof.
  unfold disposableDomains. rewrite elem_of_list_to_set. intros H.
  repeat (apply elem_of_cons in H as [-> | H]; [reflexivity|]).
  inversion H.
Qed.

Lemma verifyEmail_role_based env email from w local domain :
  split_on "@" email = [local; domain] ->
  includes roleBased (toLowerCase local) = true ->
  verifyEmail env email from w = (Returned role_based, w).
Proof.
  intros Hsplit Hrole. unfold verifyEmail. by rewrite Hsplit, Hrole.
Qed.

(** C7: the static outcomes come in a fixed order.  An address that
    does not split on the at sign into exactly two parts is
    [invalid_format], with no effect at all; a local part whose lower
    case is in the role table is [role_based], again with no effect, so
    before any DNS query and whatever the domain; an empty list of
    hosts is [no_mx_record], even for a domain of the disposable table;
    and [disposable] is returned exactly for a domain of the table
    whose resolution gave at least one host, after the DNS queries and
    before any connection. *)
Theorem static_short_circuits env email from w :
  (length (split_on "@" email) <> 2%nat ->
   verifyEmail env email from w = (Returned invalid_format, w))
  /\ (forall local domain,
        split_on "@" email = [local; domain] ->
        (includes roleBased (toLowerCase local) = true ->
         verifyEmail env email from w = (Returned role_based, w))
        /\ (includes roleBased (toLowerCase local) = false ->
            forall hosts w1,
              getMxHosts env domain w = (Returned hosts, w1) ->
              (hosts = [] ->
               verifyEmail env email from w = (Returned no_mx_record, w1))
              /\ (hosts <> [] -> has disposableDomains domain = true ->
                  verifyEmail env email from w = (Returned disposable, w1)
                  /\ conns w1 = conns w
                  /\ exists more, trace w1 = trace w ++ DnsMx domain :: more)))
  /\ ((verifyEmail env email from w).1 = Returned disposable ->
      exists local domain hosts w1,
        split_on "@" email = [local; domain]
        /\ getMxHosts env domain w = (Returned hosts, w1)
        /\ hosts <> []
        /\ has disposableDomains domain = true).
Proof.
  split; [|split].
  - intros Hlen. unfold verifyEmail.
    by destruct (split_on "@" email) as [|local [|domain [|]]].
  - intros local domain Hsplit.
    split; [by apply (verifyEmail_role_based _ _ _ _ local domain)|].
    intros Hrole. unfold verifyEmail. rewrite Hsplit, Hrole.
    intros hosts w1 Hmx. split.
    + intros ->. unfold bind. by rewrite Hmx.
    + intros Hne Hd. unfold bind. rewrite Hmx.
      destruct hosts as [|h hosts]; [done|].
      cbn [length Nat.eqb]. rewrite Hd. split; [done|].
      destruct (getMxHosts_returns env domain w) as (hosts' & more & Hmx').
      rewrite Hmx' in Hmx. injection Hmx as _ <-. simpl. eauto.
  - apply disposable_only_after_resolution.
Qed.

(** Three addresses of one disposable domain: a role account, an
    ordinary mailbox where nothing resolves, an ordinary mailbox where
    a mail exchanger exists. *)
Lemma static_short_circuits_witness :
  verifyEmail no_dns_env "a@b@c" default_from world0
  = (Returned invalid_format, world0)
  /\ verifyEmail no_dns_env "Admin@yopmail.com" default_from world0
     = (Returned role_based, world0)
  /\ verifyEmail no_dns_env "bob@yopmail.com" default_from world0
     = (Returned no_mx_record,
        World [DnsMx "yopmail.com"; DnsA "yopmail.com"] 0)
  /\ verifyEmail (one_host_env "" "" "") "bob@yopmail.com" default_from world0
     = (Returned disposable, World [DnsMx "yopmail.com"] 0).
Proof.
  split; [|split; [|split]].
  - apply static_short_circuits. vm_compute. lia.
  - destruct (static_short_circuits no_dns_env "Admin@yopmail.com"
                default_from world0) as (_ & H & _).
    destruct (H "Admin" "yopmail.com" eq_refl) as [Hrole _].
    apply Hrole. reflexivity.
  - destruct (static_short_circuits no_dns_env "bob@yopmail.com"
                default_from world0) as (_ & H & _).
    destruct (H "bob" "yopmail.com" eq_refl) as [_ Hrest].
    destruct (Hrest eq_refl []
                (World [DnsMx "yopmail.com"; DnsA "yopmail.com"] 0) eq_refl)
      as [Hnone _].
    by apply Hnone.
  - destruct (static_short_circuits (one_host_env "" "" "") "bob@yopmail.com"
                default_from world0) as (_ & H & _).
    destruct (H "bob" "yopmail.com" eq_refl) as [_ Hrest].
    destruct (Hrest eq_refl ["mx.example.org"]
                (World [DnsMx "yopmail.com"] 0) eq_refl)
      as [_ Hdisp].
    apply Hdisp; [discriminate|reflexivity].
Defined.

(** C10: the disposable table is looked up with the domain as written.
    For an address whose domain differs from an entry of the table only
    in the case of its letters, [verifyEmail] does not return
    [disposable], in any environment; the role table, in contrast, is
    looked up with the lower-cased local part, so a local part that
    equals an entry up to case is [role_based]. *)
Theorem disposable_check_is_case_sensitive env email from w local domain :
  split_on "@" email = [local; domain] ->
  (forall entry, entry ∈ disposableDomains ->
     differs_only_in_case domain entry ->
     has disposableDomains domain = false
     /\ (verifyEmail env email from w).1 <> Returned disposable)
  /\ (forall entry, entry ∈ roleBased ->
        toLowerCase local = toLowerCase entry ->
        verifyEmail env email from w = (Returned role_based, w)).
Proof.
  intros Hsplit. split.
  - intros entry Hentry [Hneq Hlow].
    assert (Hhas : has disposableDomains domain = false).
    { unfold has. apply bool_decide_eq_false. intros Hin.
      apply Hneq.
      rewrite <- (disposableDomains_lower_case domain Hin), Hlow.
      by apply disposableDomains_lower_case. }
    split; [done|]. intros Hd.
    apply disposable_only_after_resolution in Hd
      as (local' & domain' & hosts & w1 & Hsplit' & _ & _ & Hhas').
    rewrite Hsplit in Hsplit'. injection Hsplit' as _ <-. congruence.
  - intros entry Hentry Hlow.
    apply (verifyEmail_role_based env email from w local domain); [done|].
    unfold includes. apply bool_decide_eq_true.
    rewrite Hlow. by rewrite roleBased_lower_case.
Qed.

Lemma disposable_check_is_case_sensitive_witness :
  (verifyEmail (one_host_env "ADMIN@Yopmail.com" "550 no" "550 no")
     "bob@Yopmail.com" default_from world0).1 <> Returned disposable
  /\ verifyEmail (one_host_env "ADMIN@Yopmail.com" "550 no" "550 no")
       "ADMIN@Yopmail.com" default_from world0
     = (Returned role_based, world0).
Proof.
  split.
  - destruct (disposable_check_is_case_sensitive
                (one_host_env "ADMIN@Yopmail.com" "550 no" "550 no")
                "bob@Yopmail.com" default_from world0 "bob" "Yopmail.com"
                eq_refl) as [H _].
    apply (H "yopmail.com").
    + vm_compute. reflexivity.
    + split; [discriminate|reflexivity].
  - destruct (disposable_check_is_case_sensitive
                (one_host_env "ADMIN@Yopmail.com" "550 no" "550 no")
                "ADMIN@Yopmail.com" default_from world0 "ADMIN" "Yopmail.com"
                eq_refl) as [_ H].
    apply (H "admin"); [|reflexivity].
    unfold roleBased. left.
Defined.

(** One turn of the loop on a host that accepts the recipient. *)
Lemma probe_hosts_accept env email domain from h rest w r1 r2 :
  session_result env (conns w) h from email = Some r1 ->
  200 <= code (rcpt r1) < 300 ->
  session_result env (S (conns w)) h from (fake_email env domain) = Some r2 ->
  probe_hosts env email domain from (h :: rest) w
  = (Returned (if in_range 200 300 (code (rcpt r2)) then catch_all else valid),
     World (trace w ++ [Connect h 25 email;
                        Connect h 25 (fake_email env domain)])
           (S (S (conns w)))).
Proof.
  intros Hr1 Hc Hr2. cbn [probe_hosts].
  unfold bind at 1, smtpProbe at 1. rewrite Hr1. cbv zeta.
  destruct (code (rcpt r1) =? 0) eqn:H0; [apply Z.eqb_eq in H0; lia|].
  apply in_range_spec in Hc. rewrite Hc.
  unfold bind, smtpProbe. cbn [conns trace]. rewrite Hr2.
  rewrite <- app_assoc.
  by destruct (in_range 200 300 (code (rcpt r2))).
Qed.

(** One turn of the loop on a host that rejects the recipient. *)
Lemma probe_hosts_reject env email domain from h rest w r :
  session_result env (conns w) h from email = Some r ->
  400 <= code (rcpt r) < 600 ->
  probe_hosts env email domain from (h :: rest) w
  = (Returned (if in_range 500 600 (code (rcpt r)) then invalid else unknown),
     World (trace w ++ [Connect h 25 email]) (S (conns w))).
Proof.
  intros Hr Hc. cbn [probe_hosts].
  unfold bind at 1, smtpProbe at 1. rewrite Hr. cbv zeta.
  destruct (code (rcpt r) =? 0) eqn:H0; [apply Z.eqb_eq in H0; lia|].
  destruct (in_range 200 300 (code (rcpt r))) eqn:H2;
    [apply in_range_spec in H2; lia|].
  destruct (in_range 500 600 (code (rcpt r))) eqn:H5; [done|].
  destruct (in_range 400 500 (code (rcpt r))) eqn:H4; [done|].
  apply in_range_false in H5, H4. lia.
Qed.

(** C1: when the probe of a host, reached after the hosts before it
    were passed over, returns a code of at least 200 and below 300,
    [verifyEmail] opens exactly one more connection, to the same host,
    for the generated recipient [catchall_test_<now>_<random>] at the
    domain of the address; the result is [catch_all] if the code of
    that second probe is again in the range and [valid] otherwise, and
    the hosts after it are not probed. *)
Theorem catch_all_check env email from local domain w w1 pre h post r1 r2 :
  split_on "@" email = [local; domain] ->
  includes roleBased (toLowerCase local) = false ->
  getMxHosts env domain w = (Returned (pre ++ h :: post), w1) ->
  has disposableDomains domain = false ->
  probes_satisfy (fun c => negb (conclusive c)) env from email (conns w1) pre ->
  session_result env (conns w1 + length pre) h from email = Some r1 ->
  200 <= code (rcpt r1) < 300 ->
  session_result env (S (conns w1 + length pre)) h from
    (fake_email env domain) = Some r2 ->
  verifyEmail env email from w
  = (Returned (if in_range 200 300 (code (rcpt r2)) then catch_all else valid),
     World ((trace w1 ++ map (fun x => Connect x 25 email) pre)
            ++ [Connect h 25 email; Connect h 25 (fake_email env domain)])
           (S (S (conns w1 + length pre))))
  /\ fake_email env domain
     = ("catchall_test_" +:+ show (Date_now env) +:+ "_"
        +:+ show (random_1000 env)) +:+ "@" +:+ domain.
Proof.
  intros Hsplit Hrole Hmx Hdisp Hpre Hr1 Hc Hr2. split; [|reflexivity].
  rewrite (verifyEmail_probing env email from local domain w w1
             (pre ++ h :: post)) by (try done; by destruct pre).
  rewrite probe_hosts_skip by done.
  by rewrite (probe_hosts_accept _ _ _ _ _ _ _ r1 r2).
Qed.

(** A host that answers 250 for the real recipient and 550 for the
    generated one, and a host that answers 250 for both. *)
Lemma catch_all_check_witness :
  verifyEmail
    (one_host_env "bob@example.org" "250 2.1.5 Ok" "550 5.1.1 no such user")
    "bob@example.org" default_from world0
  = (Returned valid,
     World [DnsMx "example.org";
            Connect "mx.example.org" 25 "bob@example.org";
            Connect "mx.example.org" 25
              "catchall_test_1700000000000_42@example.org"] 2)
  /\ verifyEmail
       (one_host_env "bob@example.org" "250 2.1.5 Ok" "250 2.1.5 Ok")
       "bob@example.org" default_from world0
     = (Returned catch_all,
        World [DnsMx "example.org";
               Connect "mx.example.org" 25 "bob@example.org";
               Connect "mx.example.org" 25
                 "catchall_test_1700000000000_42@example.org"] 2).
Proof.
  split.
  - refine (proj1 (catch_all_check
             (one_host_env "bob@example.org" "250 2.1.5 Ok"
                "550 5.1.1 no such user")
             "bob@example.org" default_from "bob" "example.org"
             world0 (World [DnsMx "example.org"] 0) [] "mx.example.org" []
             (ProbeResult "mx.example.org" (Reply 250 "250 2.1.5 Ok"))
             (ProbeResult "mx.example.org"
                (Reply 550 "550 5.1.1 no such user"))
             eq_refl eq_refl eq_refl eq_refl I eq_refl _ eq_refl)).
    simpl. lia.
  - refine (proj1 (catch_all_check
             (one_host_env "bob@example.org" "250 2.1.5 Ok" "250 2.1.5 Ok")
             "bob@example.org" default_from "bob" "example.org"
             world0 (World [DnsMx "example.org"] 0) [] "mx.example.org" []
             (ProbeResult "mx.example.org" (Reply 250 "250 2.1.5 Ok"))
             (ProbeResult "mx.example.org" (Reply 250 "250 2.1.5 Ok"))
             eq_refl eq_refl eq_refl eq_refl I eq_refl _ eq_refl)).
    simpl. lia.
Defined.

(** C2, as claimed (refuted): a reply code that is not 0 does not
    always end the loop.  The preferred host answers RCPT TO with 354
    in both environments; the second host is probed all the same, and
    it is the second host that decides: [invalid] where it answers 550,
    [valid] where it answers 250 and then 550. *)
Lemma coded_reply_outside_the_ranges_is_passed_over :
  session_result
    (two_hosts_env (dialogue "354 go ahead") "bob@example.org"
       "550 5.1.1 no such user" "550 5.1.1 no such user")
    0 "mx1.example.org" default_from "bob@example.org"
  = Some (ProbeResult "mx1.example.org" (Reply 354 "354 go ahead"))
  /\ verifyEmail
       (two_hosts_env (dialogue "354 go ahead") "bob@example.org"
          "550 5.1.1 no such user" "550 5.1.1 no such user")
       "bob@example.org" default_from world0
     = (Returned invalid,
        World [DnsMx "example.org";
               Connect "mx1.example.org" 25 "bob@example.org";
               Connect "mx2.example.org" 25 "bob@example.org"] 2)
  /\ verifyEmail
       (two_hosts_env (dialogue "354 go ahead") "bob@example.org"
          "250 2.1.5 Ok" "550 5.1.1 no such user")
       "bob@example.org" default_from world0
     = (Returned valid,
        World [DnsMx "example.org";
               Connect "mx1.example.org" 25 "bob@example.org";
               Connect "mx2.example.org" 25 "bob@example.org";
               Connect "mx2.example.org" 25
                 "catchall_test_1700000000000_42@example.org"] 3).
Proof. repeat split; vm_compute; reflexivity. Qed.

(** C2, amended: the first host, in resolution order, whose probe
    yields a code in the ranges from 200 to 299 or from 400 to 599
    ends the loop; for a code from 500 to 599 the result is [invalid],
    for a code from 400 to 499 it is [unknown], and the hosts after it
    are not probed.  The hosts before it, whose probes yield 0 or a
    code outside these ranges, are probed once each and passed over. *)
Theorem first_conclusive_host_decides
    env email from local domain w w1 pre h post r :
  split_on "@" email = [local; domain] ->
  includes roleBased (toLowerCase local) = false ->
  getMxHosts env domain w = (Returned (pre ++ h :: post), w1) ->
  has disposableDomains domain = false ->
  probes_satisfy (fun c => negb (conclusive c)) env from email (conns w1) pre ->
  session_result env (conns w1 + length pre) h from email = Some r ->
  400 <= code (rcpt r) < 600 ->
  verifyEmail env email from w
  = (Returned (if in_range 500 600 (code (rcpt r)) then invalid else unknown),
     World ((trace w1 ++ map (fun x => Connect x 25 email) pre)
            ++ [Connect h 25 email])
           (S (conns w1 + length pre))).
Proof.
  intros Hsplit Hrole Hmx Hdisp Hpre Hr Hc.
  rewrite (verifyEmail_probing env email from local domain w w1
             (pre ++ h :: post)) by (try done; by destruct pre).
  rewrite probe_hosts_skip by done.
  by rewrite (probe_hosts_reject _ _ _ _ _ _ _ r).
Qed.

(** The preferred host answers 354 and is passed over; the second host
    answers 450 and ends the loop with [unknown]. *)
Lemma first_conclusive_host_decides_witness :
  verifyEmail
    (two_hosts_env (dialogue "354 go ahead") "bob@example.org"
       "450 4.2.0 try again later" "550 5.1.1 no such user")
    "bob@example.org" default_from world0
  = (Returned unknown,
     World [DnsMx "example.org";
            Connect "mx1.example.org" 25 "bob@example.org";
            Connect "mx2.example.org" 25 "bob@example.org"] 2).
Proof.
  refine (first_conclusive_host_decides
            (two_hosts_env (dialogue "354 go ahead") "bob@example.org"
               "450 4.2.0 try again later" "550 5.1.1 no such user")
            "bob@example.org" default_from "bob" "example.org"
            world0 (World [DnsMx "example.org"] 0)
            ["mx1.example.org"] "mx2.example.org" []
            (ProbeResult "mx2.example.org"
               (Reply 450 "450 4.2.0 try again later"))
            eq_refl eq_refl eq_refl eq_refl _ eq_refl _).
  - split; [|exact I].
    exists (ProbeResult "mx1.example.org" (Reply 354 "354 go ahead")).
    split; reflexivity.
  - simpl. lia.
Defined.

(** C3: a probe that settles with code 0 makes [verifyEmail] go on
    with the hosts that follow; when the probes of all hosts settle
    with code 0 the result is [unknown], every host having been probed
    once; and with two hosts, the first of which gives code 0 while the
    second answers 250 for the address and 550 for the generated
    recipient, the result is [valid]. *)
Theorem no_reply_moves_on env email from local domain w w1 hosts :
  split_on "@" email = [local; domain] ->
  includes roleBased (toLowerCase local) = false ->
  getMxHosts env domain w = (Returned hosts, w1) ->
  hosts <> [] ->
  has disposableDomains domain = false ->
  (forall pre h rest r,
      hosts = pre ++ h :: rest ->
      probes_satisfy (fun c => negb (conclusive c)) env from email
        (conns w1) pre ->
      session_result env (conns w1 + length pre) h from email = Some r ->
      code (rcpt r) = 0 ->
      verifyEmail env email from w
      = probe_hosts env email domain from rest
          (World ((trace w1 ++ map (fun x => Connect x 25 email) pre)
                  ++ [Connect h 25 email])
                 (S (conns w1 + length pre))))
  /\ (probes_satisfy (fun c => c =? 0) env from email (conns w1) hosts ->
      verifyEmail env email from w
      = (Returned unknown,
         World (trace w1 ++ map (fun x => Connect x 25 email) hosts)
               (conns w1 + length hosts)))
  /\ (forall h1 h2 r1 r2 r3,
        hosts = [h1; h2] ->
        session_result env (conns w1) h1 from email = Some r1 ->
        code (rcpt r1) = 0 ->
        session_result env (S (conns w1)) h2 from email = Some r2 ->
        code (rcpt r2) = 250 ->
        session_result env (S (S (conns w1))) h2 from (fake_email env domain)
        = Some r3 ->
        code (rcpt r3) = 550 ->
        verifyEmail env email from w
        = (Returned valid,
           World (trace w1 ++ [Connect h1 25 email; Connect h2 25 email;
                               Connect h2 25 (fake_email env domain)])
                 (S (S (S (conns w1)))))).
Proof.
  intros Hsplit Hrole Hmx Hne Hdisp.
  rewrite (verifyEmail_probing env email from local domain w w1 hosts)
    by done.
  split; [|split].
  - intros pre h rest r -> Hpre Hr H0.
    rewrite probe_hosts_skip by done.
    rewrite (probe_hosts_next _ _ _ _ _ _ _ r); [done|done|].
    cbn [conns]. by rewrite H0.
  - intros Hall.
    rewrite <- (app_nil_r hosts) at 1.
    rewrite probe_hosts_skip; [done|].
    revert Hall. apply probes_satisfy_weaken.
    intros c Hc. apply Z.eqb_eq in Hc. by subst c.
  - intros h1 h2 r1 r2 r3 -> Hr1 H1 Hr2 H2 Hr3 H3.
    rewrite (probe_hosts_next _ _ _ _ _ _ _ r1); [|done|by rewrite H1].
    rewrite (probe_hosts_accept _ _ _ _ _ _ _ r2 r3);
      [|done|cbn [conns]; lia|done].
    cbn [trace conns]. rewrite H3, <- app_assoc. done.
Qed.

(** Two hosts: the preferred one stays silent until the session timer
    fires; the other one answers 250 for the address and 550 for the
    generated recipient.  And two hosts that both refuse the
    connection. *)
Lemma no_reply_moves_on_witness :
  verifyEmail
    (two_hosts_env silence "bob@example.org" "250 2.1.5 Ok"
       "550 5.1.1 no such user")
    "bob@example.org" default_from world0
  = (Returned valid,
     World [DnsMx "example.org";
            Connect "mx1.example.org" 25 "bob@example.org";
            Connect "mx2.example.org" 25 "bob@example.org";
            Connect "mx2.example.org" 25
              "catchall_test_1700000000000_42@example.org"] 3)
  /\ verifyEmail
       (sim_env
          (fun _ => Resolved [Mx "mx1.example.org" 10; Mx "mx2.example.org" 20])
          nxdomain nxdomain (fun _ _ _ => refusal))
       "bob@example.org" default_from world0
     = (Returned unknown,
        World [DnsMx "example.org";
               Connect "mx1.example.org" 25 "bob@example.org";
               Connect "mx2.example.org" 25 "bob@example.org"] 2).
Proof.
  split.
  - destruct (no_reply_moves_on
                (two_hosts_env silence "bob@example.org" "250 2.1.5 Ok"
                   "550 5.1.1 no such user")
                "bob@example.org" default_from "bob" "example.org"
                world0 (World [DnsMx "example.org"] 0)
                ["mx1.example.org"; "mx2.example.org"]
                eq_refl eq_refl eq_refl ltac:(discriminate) eq_refl)
      as (_ & _ & H).
    exact (H "mx1.example.org" "mx2.example.org"
             (ProbeResult "mx1.example.org" (Reply 0 "timeout"))
             (ProbeResult "mx2.example.org" (Reply 250 "250 2.1.5 Ok"))
             (ProbeResult "mx2.example.org"
                (Reply 550 "550 5.1.1 no such user"))
             eq_refl eq_refl eq_refl eq_refl eq_refl eq_refl eq_refl).
  - destruct (no_reply_moves_on
                (sim_env
                   (fun _ => Resolved [Mx "mx1.example.org" 10;
                                       Mx "mx2.example.org" 20])
                   nxdomain nxdomain (fun _ _ _ => refusal))
                "bob@example.org" default_from "bob" "example.org"
                world0 (World [DnsMx "example.org"] 0)
                ["mx1.example.org"; "mx2.example.org"]
                eq_refl eq_refl eq_refl ltac:(discriminate) eq_refl)
      as (_ & H & _).
    apply H. simpl.
    split; [eexists; split; reflexivity|].
    split; [eexists; split; reflexivity|exact I].
Defined.

Lemma smtpProbe_returns env h port from to w :
  (forall n h to, EvTimer ∈ session_events env n h to) ->
  exists r,
    smtpProbe env h port from to w
    = (Returned r, World (trace w ++ [Connect h port to]) (S (conns w)))
    /\ host r = h.
Proof.
  intros Hfair. unfold smtpProbe, session_result.
  destruct (timer_settles h from to _ (Hfair (conns w) h to)) as [r Hr].
  rewrite Hr. exists r. split; [done|].
  pose proof (Inv_run h from to (session_events env (conns w) h to)
                session0 (Inv_session0 h)) as HI.
  by destruct (inv_result h _ HI r Hr).
Qed.

Lemma probe_hosts_returns env email domain from hosts w :
  (forall n h to, EvTimer ∈ session_events env n h to) ->
  exists c w', probe_hosts env email domain from hosts w = (Returned c, w').
Proof.
  intros Hfair. revert w.
  induction hosts as [|h hosts IH]; intros w; cbn [probe_hosts].
  - by eexists _, _.
  - unfold bind at 1.
    destruct (smtpProbe_returns env h 25 from email w Hfair) as (r & -> & _).
    cbv zeta. destruct (code (rcpt r) =? 0); [apply IH|].
    destruct (in_range 200 300 (code (rcpt r))).
    + unfold bind.
      destruct (smtpProbe_returns env h 25 from (fake_email env domain)
                  (World (trace w ++ [Connect h 25 email]) (S (conns w)))
                  Hfair) as (r2 & -> & _).
      destruct (in_range 200 300 (code (rcpt r2))); by eexists _, _.
    + destruct (in_range 500 600 (code (rcpt r))); [by eexists _, _|].
      destruct (in_range 400 500 (code (rcpt r))); [by eexists _, _|].
      apply IH.
Qed.

Lemma verifyEmail_returns env email from w :
  (forall n h to, EvTimer ∈ session_events env n h to) ->
  exists c w', verifyEmail env email from w = (Returned c, w').
Proof.
  intros Hfair. unfold verifyEmail.
  destruct (split_on "@" email) as [|local [|domain [|]]];
    try by eexists _, _.
  destruct (includes roleBased (toLowerCase local)); [by eexists _, _|].
  unfold bind at 1.
  destruct (getMxHosts_returns env domain w) as (hosts & more & ->).
  destruct hosts as [|h hosts]; [by eexists _, _|].
  cbn [length Nat.eqb].
  destruct (has disposableDomains domain); [by eexists _, _|].
  by apply probe_hosts_returns.
Qed.

Lemma probe_hosts_no_throw env email domain from hosts w e :
  (probe_hosts env email domain from hosts w).1 <> Thrown e.
Proof.
  revert w. induction hosts as [|h hosts IH]; intros w; cbn [probe_hosts].
  - discriminate.
  - unfold bind at 1, smtpProbe at 1.
    destruct (session_result env (conns w) h from email) as [r|];
      [|discriminate].
    cbv zeta. destruct (code (rcpt r) =? 0); [apply IH|].
    destruct (in_range 200 300 (code (rcpt r))).
    + unfold bind, smtpProbe. cbn [conns].
      destruct (session_result _ _ _ _ _) as [r2|]; [|discriminate].
      destruct (in_range 200 300 (code (rcpt r2))); discriminate.
    + destruct (in_range 500 600 (code (rcpt r))); [discriminate|].
      destruct (in_range 400 500 (code (rcpt r))); [discriminate|].
      apply IH.
Qed.

Lemma verifyEmail_no_throw env email from w e :
  (verifyEmail env email from w).1 <> Thrown e.
Proof.
  unfold verifyEmail.
  destruct (split_on "@" email) as [|local [|domain [|]]];
    try discriminate.
  destruct (includes roleBased (toLowerCase local)); [discriminate|].
  unfold bind at 1.
  destruct (getMxHosts_returns env domain w) as (hosts & more & ->).
  destruct hosts as [|h hosts]; [discriminate|].
  cbn [length Nat.eqb].
  destruct (has disposableDomains domain); [discriminate|].
  apply probe_hosts_no_throw.
Qed.

Lemma dialogue_has_timer reply : EvTimer ∈ dialogue reply.
Proof. unfold dialogue. repeat first [by left | right]. Qed.

(** C6: [verifyEmail] never throws, in any environment; provided the
    event loop delivers the callback of every session timer (a
    callback that finds its timer cancelled does nothing), every probe
    settles and [verifyEmail] returns a value of [classification],
    the type of the eight results.  The resolver returns a list on
    every combination of DNS answers and failures.  Inside a session a
    failure becomes a reply with code 0: a socket error, the session
    timer, a failed or timed-out MAIL FROM ([protocol_error]) and a
    failed or timed-out RCPT TO; a failed EHLO is ignored.  The promise
    of [smtpProbe] is never rejected. *)
Theorem no_exception_escapes env email from w :
  (forall e, (verifyEmail env email from w).1 <> Thrown e)
  /\ ((forall n h to, EvTimer ∈ session_events env n h to) ->
      (exists c w', verifyEmail env email from w = (Returned c, w'))
      /\ (forall h port to w0, exists r w',
            smtpProbe env h port from to w0 = (Returned r, w')))
  /\ (forall domain w0, exists hosts w',
        getMxHosts env domain w0 = (Returned hosts, w'))
  /\ (forall h port to w0 e,
        (smtpProbe env h port from to w0).1 <> Thrown e)
  /\ (forall h to s,
        settled s = None ->
        (forall msg,
            settled (step h from to s (EvError msg))
            = Some (ProbeResult h (Reply 0 ("socket_error: " +:+ msg))))
        /\ (timer s = true ->
            settled (step h from to s EvTimer)
            = Some (ProbeResult h (Reply 0 "timeout")))
        /\ (forall now e,
              at_stage s = Writing MAIL_FROM ->
              settled (step h from to s (EvWritten now (Some e)))
              = Some (ProbeResult h (Reply 0 ("protocol_error: " +:+ e))))
        /\ (forall now e,
              at_stage s = Writing RCPT_TO ->
              settled (step h from to s (EvWritten now (Some e)))
              = Some (ProbeResult h (Reply 0 e)))
        /\ (forall now start,
              at_stage s = AwaitingReply MAIL_FROM start ->
              usable (buffer s) = None -> now - start > TIMEOUT ->
              settled (step h from to s (EvTick now))
              = Some (ProbeResult h
                        (Reply 0 "protocol_error: smtp command timeout")))
        /\ (forall now start,
              at_stage s = AwaitingReply RCPT_TO start ->
              usable (buffer s) = None -> now - start > TIMEOUT ->
              settled (step h from to s (EvTick now))
              = Some (ProbeResult h (Reply 0 "smtp command timeout")))
        /\ (forall now e,
              at_stage s = Writing EHLO ->
              settled (step h from to s (EvWritten now (Some e))) = None
              /\ at_stage (step h from to s (EvWritten now (Some e)))
                 = Writing MAIL_FROM)).
Proof.
  split; [intros e; apply verifyEmail_no_throw|].
  split.
  { intros Hfair. split; [by apply verifyEmail_returns|].
    intros h port to w0.
    destruct (smtpProbe_returns env h port from to w0 Hfair) as (r & -> & _).
    by eexists _, _. }
  split.
  { intros domain w0.
    destruct (getMxHosts_returns env domain w0) as (hosts & more & ->).
    by eexists _, _. }
  split.
  { intros h port to w0 e. unfold smtpProbe.
    by destruct (session_result _ _ _ _ _). }
  intros h to s Hs. repeat split.
  - intros msg. by apply settled_error.
  - intros Ht. by apply settled_timer.
  - intros now e Hst. unfold step. rewrite Hst. unfold command_done.
    by rewrite settled_protocol_error, Hs.
  - intros now e Hst. unfold step. rewrite Hst. unfold command_done.
    by rewrite settled_finish, Hs.
  - intros now start Hst Hbuf Hlate. unfold step. rewrite Hst.
    unfold waitResp. rewrite Hbuf.
    apply Z.gt_lt, Z.gtb_lt in Hlate. rewrite Hlate. unfold command_done.
    by rewrite settled_protocol_error, Hs.
  - intros now start Hst Hbuf Hlate. unfold step. rewrite Hst.
    unfold waitResp. rewrite Hbuf.
    apply Z.gt_lt, Z.gtb_lt in Hlate. rewrite Hlate. unfold command_done.
    by rewrite settled_finish, Hs.
  - unfold step. by rewrite H.
  - unfold step. by rewrite H.
Qed.

(** With a host that answers every command, whose session timer is
    queued behind the dialogue, the verification returns. *)
Lemma no_exception_escapes_witness :
  exists c w',
    verifyEmail
      (one_host_env "bob@example.org" "250 2.1.5 Ok" "550 5.1.1 no such user")
      "bob@example.org" default_from world0
    = (Returned c, w').
Proof.
  destruct (no_exception_escapes
              (one_host_env "bob@example.org" "250 2.1.5 Ok"
                 "550 5.1.1 no such user")
              "bob@example.org" default_from world0) as (_ & H & _).
  apply H. intros n h to. simpl.
  destruct (String.eqb to "bob@example.org"); apply dialogue_has_timer.
Defined.

(** * Further properties *)

(** ** Response parser: which line gives the code *)

Lemma scan_back_app a b :
  scan_back (a ++ b)
  = match scan_back a with Some c => Some c | None => scan_back b end.
Proof.
  induction a as [|l a IH]; simpl; [done|].
  by destruct (match_line l).
Qed.

Lemma match_line_nonempty l c : match_line l = Some c -> nonempty l = true.
Proof. by destruct l. Qed.

(** X1: the code of a reply is the code of the last line of the buffer
    that matches; matching lines before it are overridden and the
    lines after it, which do not match, are skipped.  The message is
    the whole buffer, its non-empty lines joined by line feeds. *)
Theorem parser_takes_last_matching_line text pre l post c :
  split_lines text = pre ++ l :: post ->
  match_line l = Some c ->
  (forall l', l' ∈ post -> match_line l' = None) ->
  parseSMTPResponse text
  = Some (Reply c (join (String Chars.LF "")
                     (filter (fun x => nonempty x = true)
                        (split_lines text)))).
Proof.
  intros Hsplit Hl Hpost. unfold parseSMTPResponse.
  rewrite Hsplit, filter_app, filter_cons.
  rewrite decide_True by (by eapply match_line_nonempty).
  rewrite rev_app_distr. cbn [rev]. rewrite <- app_assoc.
  rewrite scan_back_app.
  assert (Hnone : scan_back
                    (rev (filter (fun x => nonempty x = true) post)) = None).
  { apply scan_back_None. intros l' Hl'. apply Hpost.
    rewrite elem_of_rev_iff in Hl'.
    by apply list_elem_of_filter in Hl' as [_ Hl']. }
  rewrite Hnone, scan_back_app. cbn [scan_back app]. by rewrite Hl.
Qed.

(** A continuation line, a final line with another code and a line
    that is no reply line: the code is the one of the second line. *)
Lemma parser_takes_last_matching_line_witness :
  parseSMTPResponse
    ("250-first" +:+ CRLF +:+ "550 second" +:+ CRLF +:+ "noise" +:+ CRLF)
  = Some (Reply 550
            ("250-first" +:+ String Chars.LF "550 second"
             +:+ String Chars.LF "noise")).
Proof.
  refine (parser_takes_last_matching_line
            ("250-first" +:+ CRLF +:+ "550 second" +:+ CRLF
             +:+ "noise" +:+ CRLF)
            ["250-first"] "550 second" ["noise"; ""] 550
            eq_refl eq_refl _).
  intros l' Hl'.
  apply elem_of_cons in Hl' as [-> | Hl']; [reflexivity|].
  apply list_elem_of_singleton in Hl' as ->. reflexivity.
Defined.

(** ** Splitting an address *)

Lemma split_on_nonempty sep s : split_on sep s <> [].
Proof.
  destruct s as [|c s]; simpl; [done|].
  destruct (Ascii.eqb c sep); [done|]. by destruct (split_on sep s).
Qed.

Lemma join_cons_char sep c x l :
  join sep (String c x :: l) = String c (join sep (x :: l)).
Proof. by destruct l. Qed.

Lemma join_split_on sep s : join (String sep "") (split_on sep s) = s.
Proof.
  induction s as [|c s IH]; simpl; [done|].
  destruct (Ascii.eqb c sep) eqn:Hc.
  - apply Ascii.eqb_eq in Hc as ->.
    pose proof (split_on_nonempty sep s) as Hne.
    destruct (split_on sep s) as [|x l]; [done|].
    cbn [join]. simpl. by rewrite <- IH.
  - pose proof (split_on_nonempty sep s) as Hne.
    destruct (split_on sep s) as [|x l]; [done|].
    rewrite join_cons_char. by rewrite IH.
Qed.

Lemma length_split_on sep s :
  length (split_on sep s) = S (count_char sep s).
Proof.
  induction s as [|c s IH]; simpl; [done|].
  destruct (Ascii.eqb c sep).
  - simpl. by rewrite IH.
  - pose proof (split_on_nonempty sep s) as Hne.
    destruct (split_on sep s) as [|x l]; [done|]. exact IH.
Qed.

Lemma split_on_parts_free sep s p :
  p ∈ split_on sep s -> count_char sep p = 0%nat.
Proof.
  revert p. induction s as [|c s IH]; intros p; simpl.
  - intros Hp. by apply list_elem_of_singleton in Hp as ->.
  - destruct (Ascii.eqb c sep) eqn:Hc.
    + intros Hp. apply elem_of_cons in Hp as [-> | Hp]; [done|by apply IH].
    + pose proof (split_on_nonempty sep s) as Hne.
      destruct (split_on sep s) as [|x l]; [done|].
      intros Hp. apply elem_of_cons in Hp as [-> | Hp].
      * simpl. rewrite Hc. apply IH. by left.
      * apply IH. by right.
Qed.

Lemma split_on_free sep s :
  count_char sep s = 0%nat -> split_on sep s = [s].
Proof.
  induction s as [|c s IH]; simpl; [done|].
  destruct (Ascii.eqb c sep); [done|].
  intros H0. by rewrite IH.
Qed.

Lemma split_on_app sep a b :
  count_char sep a = 0%nat ->
  split_on sep (a +:+ String sep b) = a :: split_on sep b.
Proof.
  induction a as [|c a IH]; simpl.
  - intros _. by rewrite Ascii.eqb_refl.
  - destruct (Ascii.eqb c sep); [done|].
    intros H0. by rewrite IH.
Qed.

(** X2: splitting on the at sign and joining again are inverse to each
    other.  When an address splits into a local part and a domain, it
    is the local part, an at sign and the domain, neither part
    contains an at sign, and the address contains exactly one;
    conversely such a concatenation splits into its two parts. *)
Theorem address_parts email local domain :
  (split_on "@" email = [local; domain] ->
   email = local +:+ "@" +:+ domain
   /\ count_char "@" local = 0%nat /\ count_char "@" domain = 0%nat
   /\ count_char "@" email = 1%nat)
  /\ (count_char "@" local = 0%nat -> count_char "@" domain = 0%nat ->
      split_on "@" (local +:+ "@" +:+ domain) = [local; domain]).
Proof.
  split.
  - intros Hsplit.
    pose proof (join_split_on "@" email) as Hjoin.
    pose proof (length_split_on "@" email) as Hlen.
    rewrite Hsplit in Hjoin, Hlen. simpl in Hjoin, Hlen.
    repeat split.
    + done.
    + apply (split_on_parts_free "@" email). rewrite Hsplit. by left.
    + apply (split_on_parts_free "@" email). rewrite Hsplit.
      right. by left.
    + lia.
  - intros Hl Hd.
    change (local +:+ "@" +:+ domain) with (local +:+ String "@" domain).
    rewrite split_on_app by done. by rewrite split_on_free.
Qed.

Lemma address_parts_witness :
  "bob@example.org" = "bob" +:+ "@" +:+ "example.org"
  /\ split_on "@" ("bob" +:+ "@" +:+ "example.org") = ["bob"; "example.org"].
Proof.
  destruct (address_parts "bob@example.org" "bob" "example.org") as [H1 H2].
  split.
  - by destruct (H1 eq_refl) as (H & _).
  - by apply H2.
Defined.

(** ** Verification engine: when each result is returned *)

Lemma verifyEmail_two_parts env email from w local domain hosts w1 :
  split_on "@" email = [local; domain] ->
  getMxHosts env domain w = (Returned hosts, w1) ->
  verifyEmail env email from w
  = if includes roleBased (toLowerCase local) then (Returned role_based, w)
    else match hosts with
         | [] => (Returned no_mx_record, w1)
         | _ :: _ =>
             if has disposableDomains domain then (Returned disposable, w1)
             else probe_hosts env email domain from hosts w1
         end.
Proof.
  intros Hsplit Hmx. unfold verifyEmail. rewrite Hsplit.
  destruct (includes roleBased (toLowerCase local)); [done|].
  unfold bind. rewrite Hmx. destruct hosts as [|h hosts]; [done|].
  cbn [length Nat.eqb]. by destruct (has disposableDomains domain).
Qed.

Lemma probe_hosts_not_static env email domain from hosts w c w' :
  probe_hosts env email domain from hosts w = (Returned c, w') ->
  c <> invalid_format /\ c <> role_based /\ c <> no_mx_record
  /\ c <> disposable.
Proof.
  intros Hp. apply probe_hosts_values in Hp.
  destruct Hp as [-> | [-> | [-> | ->]]]; done.
Qed.

(** X3: [invalid_format] is returned exactly for the inputs that do
    not contain exactly one at sign, whatever the environment. *)
Theorem invalid_format_exactly env email from w :
  (verifyEmail env email from w).1 = Returned invalid_format
  <-> count_char "@" email <> 1%nat.
Proof.
  pose proof (length_split_on "@" email) as Hlen.
  split.
  - intros Hres Hone. rewrite Hone in Hlen.
    destruct (split_on "@" email) as [|local [|domain [|]]] eqn:Hsplit;
      try discriminate.
    destruct (getMxHosts_returns env domain w) as (hosts & more & Hmx).
    rewrite (verifyEmail_two_parts env email from w local domain hosts _
               Hsplit Hmx) in Hres.
    destruct (includes roleBased (toLowerCase local)); [discriminate|].
    destruct hosts as [|h hosts]; [discriminate|].
    destruct (has disposableDomains domain); [discriminate|].
    destruct (probe_hosts _ _ _ _ _ _) as [[c| |] w'] eqn:Hp;
      try discriminate.
    apply probe_hosts_not_static in Hp as (Hc & _).
    simpl in Hres. congruence.
  - intros Hcount. unfold verifyEmail.
    destruct (split_on "@" email) as [|local [|domain [|]]]; try done.
    simpl in Hlen. lia.
Qed.

Lemma invalid_format_exactly_witness :
  (verifyEmail no_dns_env "bob.example.org" default_from world0).1
  = Returned invalid_format.
Proof.
  apply (invalid_format_exactly no_dns_env "bob.example.org"
           default_from world0).
  vm_compute. lia.
Defined.

(** X4: for an address with one at sign, [role_based] is returned
    exactly when the lower-cased local part is in the role table, and
    [no_mx_record] exactly when it is not and the resolver returns no
    host. *)
Theorem role_and_no_mx_exactly env email from w local domain :
  split_on "@" email = [local; domain] ->
  ((verifyEmail env email from w).1 = Returned role_based
   <-> toLowerCase local ∈ roleBased)
  /\ ((verifyEmail env email from w).1 = Returned no_mx_record
      <-> (toLowerCase local ∉ roleBased)
          /\ (getMxHosts env domain w).1 = Returned []).
Proof.
  intros Hsplit.
  destruct (getMxHosts_returns env domain w) as (hosts & more & Hmx).
  rewrite (verifyEmail_two_parts env email from w local domain hosts _
             Hsplit Hmx), Hmx.
  unfold includes.
  destruct (decide (toLowerCase local ∈ roleBased)) as [Hin | Hout].
  - rewrite bool_decide_eq_true_2 by done. simpl.
    split; split; try done. by intros [? _].
  - rewrite bool_decide_eq_false_2 by done.
    destruct hosts as [|h hosts].
    + simpl. split; split; try done.
    + match goal with
      | |- context [if has _ _ then ?a else ?b] =>
          set (res := if has disposableDomains domain then a else b)
      end.
      assert (Hstat : res.1 <> Returned role_based
                      /\ res.1 <> Returned no_mx_record).
      { subst res. destruct (has disposableDomains domain); [done|].
        destruct (probe_hosts _ _ _ _ _ _) as [[c'| |] w'] eqn:Hp;
          try done.
        apply probe_hosts_not_static in Hp as (_ & H1 & H2 & _).
        simpl. split; congruence. }
      destruct Hstat as [Hrole Hmx'].
      split; split; try done. by intros [_ ?].
Qed.

Lemma role_and_no_mx_exactly_witness :
  toLowerCase "Sales" ∈ roleBased
  /\ (verifyEmail no_dns_env "bob@example.org" default_from world0).1
     = Returned no_mx_record.
Proof.
  destruct (role_and_no_mx_exactly no_dns_env "Sales@example.org"
              default_from world0 "Sales" "example.org" eq_refl)
    as [Hrole _].
  destruct (role_and_no_mx_exactly no_dns_env "bob@example.org"
              default_from world0 "bob" "example.org" eq_refl)
    as [_ Hmx].
  split.
  - apply Hrole. reflexivity.
  - apply Hmx. split; [|reflexivity].
    unfold roleBased. intros Hin.
    repeat (apply elem_of_cons in Hin as [Hin | Hin]; [discriminate|]).
    inversion Hin.
Defined.

(** ** Resolver: queries and hosts *)

Lemma getMxHosts_trace env domain w :
  exists dns,
    (getMxHosts env domain w).2 = World (trace w ++ dns) (conns w)
    /\ dns = match dns_mx env domain with
             | Resolved _ => [DnsMx domain]
             | Failed _ =>
                 match dns_a env domain with
                 | Resolved [] =>
                     [DnsMx domain; DnsA domain; DnsAAAA domain]
                 | _ => [DnsMx domain; DnsA domain]
                 end
             end.
Proof.
  run_resolver.
  destruct (dns_mx env domain) as [mx|e]; simpl.
  - eexists. split; [|reflexivity]. by destruct mx.
  - destruct (dns_a env domain) as [[|a0 a]|e4]; simpl.
    + eexists. split; [|reflexivity].
      destruct (dns_aaaa env domain) as [[|b0 b]|e6]; simpl;
        by rewrite <- !app_assoc.
    + eexists. split; [|reflexivity]. by rewrite <- !app_assoc.
    + eexists. split; [|reflexivity]. by rewrite <- !app_assoc.
Qed.

Lemma getMxHosts_dns_only env domain w hosts w1 :
  getMxHosts env domain w = (Returned hosts, w1) ->
  exists dns,
    trace w1 = trace w ++ dns /\ conns w1 = conns w
    /\ Forall (fun e => is_connect e = false) dns.
Proof.
  destruct (getMxHosts_trace env domain w) as (dns & Heq & Hdns).
  intros Hmx. rewrite Hmx in Heq. simpl in Heq. subst w1. simpl.
  exists dns. repeat split. rewrite Hdns.
  destruct (dns_mx env domain) as [mx|e]; [by repeat constructor|].
  destruct (dns_a env domain) as [[|a0 a]|e4]; by repeat constructor.
Qed.

(** X6: the resolver asks at most three questions, in the order MX, A,
    AAAA, and opens no connection.  It asks for the A records only
    when the MX lookup failed, and for the AAAA records only when the
    A lookup resolved to no address; a failed A lookup ends the
    resolution. *)
Theorem resolver_queries env domain w :
  exists dns,
    (getMxHosts env domain w).2 = World (trace w ++ dns) (conns w)
    /\ (DnsA domain ∈ dns <-> exists e, dns_mx env domain = Failed e)
    /\ (DnsAAAA domain ∈ dns
        <-> (exists e, dns_mx env domain = Failed e)
            /\ dns_a env domain = Resolved [])
    /\ (dns = [DnsMx domain] \/ dns = [DnsMx domain; DnsA domain]
        \/ dns = [DnsMx domain; DnsA domain; DnsAAAA domain]).
Proof.
  destruct (getMxHosts_trace env domain w) as (dns & Heq & Hdns).
  exists dns. split; [done|]. rewrite Hdns.
  destruct (dns_mx env domain) as [mx|e].
  - split; [|split; [|by left]].
    + split; [|by intros [e [=]]].
      intros Hin. apply list_elem_of_singleton in Hin. discriminate.
    + split; [|by intros [[e [=]] _]].
      intros Hin. apply list_elem_of_singleton in Hin. discriminate.
  - destruct (dns_a env domain) as [[|a0 a]|e4].
    + split; [|split; [|by right; right]].
      * split; [eauto|]. intros _. right. by left.
      * split; [eauto|]. intros _. right. right. by left.
    + split; [|split; [|by right; left]].
      * split; [eauto|]. intros _. right. by left.
      * split; [|by intros [_ [=]]]. intros Hin.
        apply elem_of_cons in Hin as [[=] | Hin].
        apply list_elem_of_singleton in Hin. discriminate.
    + split; [|split; [|by right; left]].
      * split; [eauto|]. intros _. right. by left.
      * split; [|by intros [_ [=]]]. intros Hin.
        apply elem_of_cons in Hin as [[=] | Hin].
        apply list_elem_of_singleton in Hin. discriminate.
Qed.

Lemma resolver_queries_witness :
  exists e, dns_mx ipv6_only_env "example.org" = Failed e.
Proof.
  destruct (resolver_queries ipv6_only_env "example.org" world0)
    as (dns & Heq & HA & _).
  apply HA. injection Heq as <-. right. by left.
Defined.

(** X7: the resolver invents no host.  Every host it returns is the
    domain itself or the exchange of a record of the MX answer without
    its final dot; when the MX lookup resolves, there is one host per
    record, duplicates included; when it fails, the result is empty or
    the domain alone. *)
Theorem resolver_hosts env domain w hosts w1 :
  getMxHosts env domain w = (Returned hosts, w1) ->
  (forall h, h ∈ hosts ->
     h = domain
     \/ exists mx m, dns_mx env domain = Resolved mx /\ m ∈ mx
                     /\ h = strip_trailing_dot (exchange m))
  /\ (forall mx, dns_mx env domain = Resolved mx ->
        length hosts = length mx)
  /\ (forall e, dns_mx env domain = Failed e ->
        hosts = [] \/ hosts = [domain]).
Proof.
  revert w1. run_resolver.
  destruct (dns_mx env domain) as [mx|e] eqn:Hmx; simpl.
  - destruct mx as [|m0 mx]; simpl.
    + intros w1 [= <- _]. repeat split; try done.
      * intros h Hh. inversion Hh.
      * by intros mx' [= <-].
    + intros w1 [= <- _]. repeat split; try done.
      * intros h Hh. right.
        apply list_elem_of_fmap in Hh as (m & -> & Hm).
        exists (m0 :: mx), m. split; [done|]. split; [|done].
        by rewrite <- (sort_by_priority_perm (m0 :: mx)).
      * intros mx' [= <-].
        rewrite length_map.
        by rewrite (sort_by_priority_perm (m0 :: mx)).
  - assert (Hcase : forall hs : list string, hs = [] \/ hs = [domain] ->
      (forall h, h ∈ hs ->
         h = domain
         \/ exists mx m, @Failed mx_record e = Resolved mx /\ m ∈ mx
                         /\ h = strip_trailing_dot (exchange m))
      /\ (forall mx, @Failed mx_record e = Resolved mx ->
            length hs = length mx)
      /\ (forall e0, @Failed mx_record e = Failed e0 ->
            hs = [] \/ hs = [domain])).
    { intros hs Hhs. repeat split; try done.
      intros h Hh. destruct Hhs as [-> | ->]; [inversion Hh|].
      left. by apply list_elem_of_singleton in Hh. }
    destruct (dns_a env domain) as [[|a0 a]|e4]; simpl.
    + destruct (dns_aaaa env domain) as [[|b0 b]|e6]; simpl;
        intros w1 [= <- _]; apply Hcase; auto.
    + intros w1 [= <- _]. apply Hcase; auto.
    + intros w1 [= <- _]. apply Hcase; auto.
Qed.

Lemma resolver_hosts_witness :
  length ["mx1.example.org"; "mx2.example.org"]
  = length [Mx "mx2.example.org." 20; Mx "mx1.example.org." 10].
Proof.
  destruct (resolver_hosts (two_hosts_env silence "" "" "") "example.org"
              world0 ["mx1.example.org"; "mx2.example.org"]
              (World [DnsMx "example.org"] 0) eq_refl) as (_ & H & _).
  by apply H.
Defined.

(** ** Verification engine: what the loop does to the network *)

Lemma probe_of_weaken env email domain h hosts e :
  probe_of env email domain hosts e ->
  probe_of env email domain (h :: hosts) e.
Proof.
  intros (h' & to & -> & Hin & Hto). exists h', to.
  split; [done|]. split; [by right|done].
Qed.

Lemma probe_hosts_effects env email domain from hosts w o w' :
  probe_hosts env email domain from hosts w = (o, w') ->
  exists more,
    trace w' = trace w ++ more
    /\ conns w' = (conns w + length more)%nat
    /\ (length more <= length hosts + 1)%nat
    /\ Forall (probe_of env email domain hosts) more.
Proof.
  revert w o w'.
  induction hosts as [|h hosts IH]; intros w o w'; cbn [probe_hosts].
  - intros [= <- <-]. exists []. rewrite app_nil_r. simpl.
    repeat split; [lia|lia|constructor].
  - assert (Hfirst : probe_of env email domain (h :: hosts)
                       (Connect h 25 email)).
    { exists h, email. split; [done|]. split; [by left|by left]. }
    assert (Hnext : forall w1 o1,
      probe_hosts env email domain from hosts
        (World (trace w ++ [Connect h 25 email]) (S (conns w))) = (o1, w1) ->
      exists more,
        trace w1 = trace w ++ more
        /\ conns w1 = (conns w + length more)%nat
        /\ (length more <= length (h :: hosts) + 1)%nat
        /\ Forall (probe_of env email domain (h :: hosts)) more).
    { intros w1 o1 Hp.
      apply IH in Hp as (more & Ht & Hc & Hl & Hall). cbn [trace conns] in *.
      exists (Connect h 25 email :: more).
      rewrite Ht, <- app_assoc. simpl.
      repeat split; [lia|lia|].
      constructor; [done|].
      eapply Forall_impl; [exact Hall|]. intros e. apply probe_of_weaken. }
    assert (Hstop : exists more,
        trace w ++ [Connect h 25 email] = trace w ++ more
        /\ S (conns w) = (conns w + length more)%nat
        /\ (length more <= length (h :: hosts) + 1)%nat
        /\ Forall (probe_of env email domain (h :: hosts)) more).
    { exists [Connect h 25 email]. simpl.
      repeat split; [lia|lia|]. by constructor. }
    unfold bind at 1, smtpProbe at 1.
    destruct (session_result env (conns w) h from email) as [r|];
      [|by intros [= <- <-]].
    cbv zeta. destruct (code (rcpt r) =? 0); [apply Hnext|].
    destruct (in_range 200 300 (code (rcpt r))).
    + unfold bind, smtpProbe. cbn [conns trace].
      assert (Htwo : exists more,
        (trace w ++ [Connect h 25 email])
          ++ [Connect h 25 (fake_email env domain)] = trace w ++ more
        /\ S (S (conns w)) = (conns w + length more)%nat
        /\ (length more <= length (h :: hosts) + 1)%nat
        /\ Forall (probe_of env email domain (h :: hosts)) more).
      { exists [Connect h 25 email; Connect h 25 (fake_email env domain)].
        rewrite <- app_assoc. simpl. repeat split; [lia|lia|].
        constructor; [done|]. constructor; [|done].
        exists h, (fake_email env domain).
        split; [done|]. split; [by left|by right]. }
      destruct (session_result _ _ _ _ _) as [r2|].
      * destruct (in_range 200 300 (code (rcpt r2)));
          by intros [= <- <-].
      * by intros [= <- <-].
    + destruct (in_range 500 600 (code (rcpt r))); [by intros [= <- <-]|].
      destruct (in_range 400 500 (code (rcpt r))); [|apply Hnext].
      by intros [= <- <-].
Qed.

(** X5: a verification connects only to hosts the resolver returned,
    on port 25, and only for the address itself or for the generated
    recipient; it opens at most one connection per host and one more
    for the catch-all check; what it adds to the trace is the DNS
    queries followed by these connections.  This holds for every
    outcome, also when a probe never settles. *)
Theorem connections_are_bounded env email from w local domain hosts w1 o w' :
  split_on "@" email = [local; domain] ->
  getMxHosts env domain w = (Returned hosts, w1) ->
  verifyEmail env email from w = (o, w') ->
  exists dns more,
    trace w' = trace w ++ dns ++ more
    /\ Forall (fun e => is_connect e = false) dns
    /\ conns w' = (conns w + length more)%nat
    /\ (length more <= length hosts + 1)%nat
    /\ Forall (probe_of env email domain hosts) more.
Proof.
  intros Hsplit Hmx.
  rewrite (verifyEmail_two_parts env email from w local domain hosts w1)
    by done.
  destruct (getMxHosts_dns_only env domain w hosts w1 Hmx)
    as (dns & Ht1 & Hc1 & Hdns).
  assert (Hnone : forall ws, ws = w \/ ws = w1 ->
            exists dns0 more,
              trace ws = trace w ++ dns0 ++ more
              /\ Forall (fun e => is_connect e = false) dns0
              /\ conns ws = (conns w + length more)%nat
              /\ (length more <= length hosts + 1)%nat
              /\ Forall (probe_of env email domain hosts) more).
  { intros ws [-> | ->].
    - exists [], []. simpl. rewrite app_nil_r.
      split; [done|]. split; [constructor|].
      split; [lia|]. split; [lia|constructor].
    - exists dns, []. rewrite app_nil_r. simpl.
      split; [done|]. split; [done|].
      split; [lia|]. split; [lia|constructor]. }
  destruct (includes roleBased (toLowerCase local)).
  { intros [= <- <-]. apply Hnone. by left. }
  destruct hosts as [|h hosts].
  { intros [= <- <-]. apply Hnone. by right. }
  destruct (has disposableDomains domain).
  { intros [= <- <-]. apply Hnone. by right. }
  intros Hp. apply probe_hosts_effects in Hp as (more & Ht & Hc & Hl & Hall).
  exists dns, more. rewrite Ht, Ht1, Hc, Hc1, <- app_assoc. done.
Qed.

Lemma connections_are_bounded_witness :
  exists dns more,
    [DnsMx "example.org";
     Connect "mx.example.org" 25 "bob@example.org";
     Connect "mx.example.org" 25 "catchall_test_1700000000000_42@example.org"]
    = [] ++ dns ++ more
    /\ Forall (fun e => is_connect e = false) dns
    /\ 2%nat = (0 + length more)%nat
    /\ (length more <= 1 + 1)%nat
    /\ Forall (probe_of
                 (one_host_env "bob@example.org" "250 2.1.5 Ok"
                    "550 5.1.1 no such user")
                 "bob@example.org" "example.org" ["mx.example.org"]) more.
Proof.
  exact (connections_are_bounded
           (one_host_env "bob@example.org" "250 2.1.5 Ok"
              "550 5.1.1 no such user")
           "bob@example.org" default_from world0 "bob" "example.org"
           ["mx.example.org"] (World [DnsMx "example.org"] 0)
           (Returned valid)
           (World [DnsMx "example.org";
                   Connect "mx.example.org" 25 "bob@example.org";
                   Connect "mx.example.org" 25
                     "catchall_test_1700000000000_42@example.org"] 2)
           eq_refl eq_refl eq_refl).
Defined.

(** ** Verification engine: what a result is evidence of *)

Lemma accepted_weaken env from email domain h hosts again :
  accepted env from email domain hosts again ->
  accepted env from email domain (h :: hosts) again.
Proof.
  intros (n & h' & r1 & r2 & Hin & H). exists n, h', r1, r2.
  split; [by right|done].
Qed.

Lemma rejected_weaken env from email h hosts :
  rejected env from email hosts -> rejected env from email (h :: hosts).
Proof.
  intros (n & h' & r & Hin & H). exists n, h', r. split; [by right|done].
Qed.

Lemma probe_hosts_sound env email domain from hosts w c w' :
  probe_hosts env email domain from hosts w = (Returned c, w') ->
  (c = valid -> accepted env from email domain hosts false)
  /\ (c = catch_all -> accepted env from email domain hosts true)
  /\ (c = invalid -> rejected env from email hosts).
Proof.
  revert w. induction hosts as [|h hosts IH]; intros w; cbn [probe_hosts].
  - intros [= <- _]. done.
  - assert (Hnext : forall w1,
      probe_hosts env email domain from hosts w1 = (Returned c, w') ->
      (c = valid -> accepted env from email domain (h :: hosts) false)
      /\ (c = catch_all -> accepted env from email domain (h :: hosts) true)
      /\ (c = invalid -> rejected env from email (h :: hosts))).
    { intros w1 Hp. apply IH in Hp as (Hv & Hc & Hi).
      auto using accepted_weaken, rejected_weaken. }
    unfold bind at 1, smtpProbe at 1.
    destruct (session_result env (conns w) h from email) as [r|] eqn:Hr;
      [|discriminate].
    cbv zeta. destruct (code (rcpt r) =? 0); [apply Hnext|].
    destruct (in_range 200 300 (code (rcpt r))) eqn:H2.
    + unfold bind, smtpProbe. cbn [conns trace].
      destruct (session_result env (S (conns w)) h from
                  (fake_email env domain)) as [r2|] eqn:Hr2;
        [|discriminate].
      destruct (in_range 200 300 (code (rcpt r2))) eqn:H22;
        intros [= <- _]; repeat split; try done; intros _;
        exists (conns w), h, r, r2; split; [by left|done|by left|done].
    + destruct (in_range 500 600 (code (rcpt r))) eqn:H5.
      { intros [= <- _]. repeat split; try done. intros _.
        exists (conns w), h, r. split; [by left|done]. }
      destruct (in_range 400 500 (code (rcpt r))); [|apply Hnext].
      intros [= <- _]. done.
Qed.

(** X8: the three results that speak about the mailbox rest on a
    reply.  [valid] is returned only if a listed host answered the
    address with a code from 200 to 299 and the generated recipient, on
    the next connection to the same host, with a code outside that
    range; [catch_all] only if both codes were in the range; [invalid]
    only if a listed host answered the address with a code from 500 to
    599.  In each case the address has one at sign, its local part is
    no role account and its domain is not in the disposable table. *)
Theorem positive_results_are_sound env email from w c w' :
  verifyEmail env email from w = (Returned c, w') ->
  c = valid \/ c = catch_all \/ c = invalid ->
  exists local domain hosts w1,
    split_on "@" email = [local; domain]
    /\ includes roleBased (toLowerCase local) = false
    /\ getMxHosts env domain w = (Returned hosts, w1)
    /\ has disposableDomains domain = false
    /\ (c = valid -> accepted env from email domain hosts false)
    /\ (c = catch_all -> accepted env from email domain hosts true)
    /\ (c = invalid -> rejected env from email hosts).
Proof.
  intros Hres Hc.
  assert (Hstatic : c <> invalid_format /\ c <> role_based
                    /\ c <> no_mx_record /\ c <> disposable).
  { destruct Hc as [-> | [-> | ->]]; done. }
  destruct Hstatic as (H1 & H2 & H3 & H4).
  unfold verifyEmail in Hres.
  destruct (split_on "@" email) as [|local [|domain [|]]] eqn:Hsplit;
    try (injection Hres as <- _; done).
  destruct (includes roleBased (toLowerCase local)) eqn:Hrole;
    [injection Hres as <- _; done|].
  unfold bind at 1 in Hres.
  destruct (getMxHosts_returns env domain w) as (hosts & more & Hmx).
  rewrite Hmx in Hres.
  destruct hosts as [|h hosts]; [injection Hres as <- _; done|].
  cbn [length Nat.eqb] in Hres.
  destruct (has disposableDomains domain) eqn:Hd;
    [injection Hres as <- _; done|].
  exists local, domain, (h :: hosts),
    (World (trace w ++ DnsMx domain :: more) (conns w)).
  split; [done|]. split; [done|]. split; [exact Hmx|]. split; [done|].
  eapply probe_hosts_sound, Hres.
Qed.

Lemma positive_results_are_sound_witness :
  exists local domain hosts w1,
    split_on "@" "bob@example.org" = [local; domain]
    /\ includes roleBased (toLowerCase local) = false
    /\ getMxHosts
         (one_host_env "bob@example.org" "550 5.1.1 no such user" "")
         domain world0 = (Returned hosts, w1)
    /\ has disposableDomains domain = false
    /\ (invalid = valid ->
        accepted (one_host_env "bob@example.org" "550 5.1.1 no such user" "")
          default_from "bob@example.org" domain hosts false)
    /\ (invalid = catch_all ->
        accepted (one_host_env "bob@example.org" "550 5.1.1 no such user" "")
          default_from "bob@example.org" domain hosts true)
    /\ (invalid = invalid ->
        rejected (one_host_env "bob@example.org" "550 5.1.1 no such user" "")
          default_from "bob@example.org" hosts).
Proof.
  refine (positive_results_are_sound
            (one_host_env "bob@example.org" "550 5.1.1 no such user" "")
            "bob@example.org" default_from world0 invalid
            (World [DnsMx "example.org";
                    Connect "mx.example.org" 25 "bob@example.org"] 1)
            eq_refl _).
  right. by right.
Defined.

(** ** Probe session: the order of the commands *)

Lemma writes_app a b : writes (a ++ b) = writes a ++ writes b.
Proof.
  induction a as [|x a IH]; simpl; [done|].
  destruct x; simpl; by rewrite ?IH.
Qed.

Lemma written_at_fun st n m :
  st <> Finished -> written_at st n -> written_at st m -> n = m.
Proof. destruct st as [| |[]|[]|]; simpl; intros; try done; lia. Qed.

Section ScriptFacts.

Variables (h from to : string).

Lemma Script_session0 : Script h from to session0.
Proof. split; [by exists 0%nat|done]. Qed.

Lemma Script_set_buffer b s :
  Script h from to s -> Script h from to (set_buffer b s).
Proof. intros []. by split. Qed.

Lemma Script_set_stage st s :
  Script h from to s -> at_stage s <> Finished ->
  (forall n, written_at (at_stage s) n -> written_at st n) ->
  Script h from to (set_stage st s).
Proof.
  intros [(n & Hn & Hw) Hcoded] Hst Hsame. split; simpl.
  - exists n. auto.
  - intros r Hr Hc. by destruct (Hcoded r Hr Hc).
Qed.

(** A sentinel is resolved: nothing is written and the handler stays
    where it is. *)
Lemma Script_sentinel m s :
  Script h from to s ->
  Script h from to
    (resolve (ProbeResult h (Reply 0 m)) (cleanup (clearTimeout s))).
Proof.
  intros [(n & Hn & Hw) Hcoded].
  assert (Hacts : writes (actions (resolve (ProbeResult h (Reply 0 m))
                                     (cleanup (clearTimeout s))))
                  = writes (actions s)).
  { unfold resolve, cleanup, clearTimeout. simpl.
    destruct (closed s); simpl; rewrite !writes_app; simpl;
      by rewrite ?app_nil_r. }
  assert (Hstage : at_stage (resolve (ProbeResult h (Reply 0 m))
                               (cleanup (clearTimeout s))) = at_stage s).
  { unfold resolve, cleanup, clearTimeout. simpl. by destruct (closed s). }
  split.
  - exists n. by rewrite Hstage, Hacts.
  - intros r Hr Hc. rewrite Hstage, Hacts. apply (Hcoded r); [|done].
    rewrite settled_resolve, settled_cleanup in Hr. simpl in Hr.
    destruct (settled s); [done|]. by injection Hr as <-.
Qed.

Lemma Script_sendCmd c s n :
  Script h from to s -> at_stage s <> Finished ->
  written_at (at_stage s) n -> written_at (Writing c) (S n) ->
  Script h from to (sendCmd from to c s).
Proof.
  intros [(n' & Hn' & Hw) Hcoded] Hst Hn Hc.
  assert (n' = n) as -> by (by eapply written_at_fun).
  split.
  - exists (S n). split; [done|].
    unfold sendCmd. simpl. rewrite writes_app, Hw. simpl.
    destruct c; simpl in Hc; injection Hc as ->; reflexivity.
  - intros r Hr Hcode. by destruct (Hcoded r Hr Hcode).
Qed.

Lemma Script_finish r s :
  Script h from to s -> at_stage s <> Finished ->
  written_at (at_stage s) 3 ->
  Script h from to (finish h r s).
Proof.
  intros [(n' & Hn' & Hw) Hcoded] Hst Hn.
  assert (n' = 3%nat) as -> by (by eapply written_at_fun).
  assert (Hacts : writes (actions (finish h r s)) = command_script from to).
  { unfold finish, resolve, cleanup, clearTimeout. simpl.
    destruct (closed s); simpl; rewrite !writes_app, Hw; reflexivity. }
  split.
  - exists 5%nat. split; [by right|]. by rewrite Hacts.
  - intros r0 Hr0 Hcode. done.
Qed.

Lemma Script_protocol_error e s :
  Script h from to s -> at_stage s <> Finished ->
  written_at (at_stage s) 2 ->
  Script h from to (protocol_error h e s).
Proof.
  intros [(n' & Hn' & Hw) Hcoded] Hst Hn.
  assert (n' = 2%nat) as -> by (by eapply written_at_fun).
  assert (Hacts : writes (actions (protocol_error h e s))
                  = writes (actions s)).
  { unfold protocol_error, resolve, cleanup, clearTimeout. simpl.
    destruct (closed s); simpl; rewrite !writes_app; simpl;
      by rewrite ?app_nil_r. }
  split.
  - exists 2%nat. split; [by left|]. by rewrite Hacts.
  - intros r0 Hr0 Hcode. exfalso.
    rewrite settled_protocol_error in Hr0.
    destruct (settled s) as [r1|] eqn:Hs.
    + injection Hr0 as <-. by destruct (Hcoded r1 eq_refl Hcode).
    + injection Hr0 as <-. done.
Qed.

Lemma Script_command_done c r s :
  Script h from to s -> at_stage s <> Finished ->
  written_at (at_stage s) (match c with EHLO => 1 | MAIL_FROM => 2
                                   | RCPT_TO => 3 end) ->
  Script h from to (command_done h from to c r s).
Proof.
  intros Hs Hst Hn. destruct c, r as [p|e]; unfold command_done.
  - by apply (Script_sendCmd MAIL_FROM s 1).
  - by apply (Script_sendCmd MAIL_FROM s 1).
  - by apply (Script_sendCmd RCPT_TO s 2).
  - by apply Script_protocol_error.
  - by apply Script_finish.
  - by apply Script_finish.
Qed.

Lemma Script_waitResp c start now s :
  Script h from to s ->
  at_stage s = Writing c \/ (exists t, at_stage s = AwaitingReply c t) ->
  Script h from to (waitResp h from to c start now s).
Proof.
  intros Hs Hst.
  assert (Hnf : at_stage s <> Finished).
  { destruct Hst as [-> | [t ->]]; done. }
  assert (Hn : written_at (at_stage s)
                 (match c with EHLO => 1 | MAIL_FROM => 2 | RCPT_TO => 3 end)).
  { destruct Hst as [-> | [t ->]]; by destruct c. }
  unfold waitResp. destruct (usable (buffer s)).
  - by apply Script_command_done.
  - destruct (now - start >? TIMEOUT); [by apply Script_command_done|].
    apply Script_set_stage; [done|done|].
    intros n. destruct Hst as [-> | [t ->]]; by destruct c.
Qed.

Lemma Script_waitGreeting s :
  Script h from to s ->
  at_stage s = Connecting \/ at_stage s = AwaitingGreeting ->
  Script h from to (waitGreeting from to s).
Proof.
  intros Hs Hst.
  assert (Hnf : at_stage s <> Finished) by (by destruct Hst as [-> | ->]).
  assert (Hn : written_at (at_stage s) 0) by (by destruct Hst as [-> | ->]).
  unfold waitGreeting. destruct (usable (buffer s)).
  - by apply (Script_sendCmd EHLO s 0).
  - apply Script_set_stage; [done|done|].
    intros n. by destruct Hst as [-> | ->].
Qed.

Lemma Script_step s ev :
  Script h from to s -> Script h from to (step h from to s ev).
Proof.
  intros Hs. destruct ev as [|chunk|msg| |now|now err]; unfold step.
  - destruct (at_stage s) eqn:Hst; try done.
    apply Script_waitGreeting; auto.
  - by apply Script_set_buffer.
  - by apply Script_sentinel.
  - destruct (timer s); [by apply Script_sentinel|done].
  - destruct (at_stage s) eqn:Hst; try done.
    + apply Script_waitGreeting; auto.
    + apply Script_waitResp; eauto.
  - destruct (at_stage s) eqn:Hst; try done.
    destruct err as [e|].
    + apply Script_command_done; [done|by rewrite Hst|].
      rewrite Hst. by destruct c.
    + apply Script_waitResp; auto.
Qed.

Lemma Script_run evs s :
  Script h from to s -> Script h from to (run h from to s evs).
Proof.
  revert s. induction evs as [|ev evs IH]; intros s Hs; [done|].
  rewrite run_cons. by apply IH, Script_step.
Qed.

End ScriptFacts.

(** X9: whatever callbacks arrive and in whatever order, what a session
    has written to its socket is a prefix of one fixed script: EHLO,
    MAIL FROM for the sender, RCPT TO for the recipient, RSET, QUIT.
    No command is repeated, skipped or sent out of order, and nothing
    at all is written while the handler has not started or still waits
    for the greeting. *)
Theorem commands_follow_the_script h from to evs :
  writes (actions (run h from to session0 evs))
    `prefix_of` command_script from to
  /\ (at_stage (run h from to session0 evs) = Connecting
      \/ at_stage (run h from to session0 evs) = AwaitingGreeting ->
      writes (actions (run h from to session0 evs)) = []).
Proof.
  destruct (Script_run h from to evs session0 (Script_session0 h from to))
    as [(n & Hn & Hw) _].
  split.
  - rewrite Hw. exists (drop n (command_script from to)).
    by rewrite take_drop.
  - intros Hst. rewrite Hw.
    destruct Hst as [Hst | Hst]; rewrite Hst in Hn; simpl in Hn;
      by subst n.
Qed.

Lemma commands_follow_the_script_witness :
  writes (actions (run "mx" "a@b" "c@d" session0
                     [EvData ("250 early" +:+ CRLF); EvTick 10])) = [].
Proof.
  apply (commands_follow_the_script "mx" "a@b" "c@d").
  by left.
Defined.



(** ** Probe session: a server that answers *)

Lemma usable_empty : usable "" = None.
Proof. reflexivity. Qed.

(** X11: when the server sends something with a usable code after the
    connection and after each of EHLO and MAIL FROM, and answers RCPT
    TO with a buffer the parser reads as [pr], the session settles with
    [pr] for its host.  The codes of the greeting and of the replies to
    EHLO and MAIL FROM play no part: a sender refused with 550 does not
    stop the session from asking for the recipient.  The times of the
    callbacks play no part either. *)
Theorem answered_session_returns_rcpt_reply
    h from to g e m r pr t1 t2 t3 t4 t5 t6 t7 :
  is_Some (usable g) -> is_Some (usable e) -> is_Some (usable m) ->
  usable r = Some pr ->
  settled (run h from to session0
             [ EvConnect; EvData g; EvTick t1;
               EvWritten t2 None; EvData e; EvTick t3;
               EvWritten t4 None; EvData m; EvTick t5;
               EvWritten t6 None; EvData r; EvTick t7 ])
  = Some (ProbeResult h pr).
Proof.
  intros [pg Hg] [pe He] [pm Hm] Hr.
  assert (Hfresh : forall t, (t - t >? TIMEOUT) = false).
  { intros t. by rewrite Z.sub_diag. }
  unfold session0.
  session_step_by run_cons. rewrite usable_empty.
  cbn -[usable Z.sub Z.gtb run command_text].
  session_step_by run_cons.
  session_step_by run_cons. rewrite Hg. cbn -[usable Z.sub Z.gtb run command_text].
  session_step_by run_cons. rewrite usable_empty, Hfresh.
  cbn -[usable Z.sub Z.gtb run command_text].
  session_step_by run_cons.
  session_step_by run_cons. rewrite He. cbn -[usable Z.sub Z.gtb run command_text].
  session_step_by run_cons. rewrite usable_empty, Hfresh.
  cbn -[usable Z.sub Z.gtb run command_text].
  session_step_by run_cons.
  session_step_by run_cons. rewrite Hm. cbn -[usable Z.sub Z.gtb run command_text].
  session_step_by run_cons. rewrite usable_empty, Hfresh.
  cbn -[usable Z.sub Z.gtb run command_text].
  session_step_by run_cons.
  session_step_by run_cons. rewrite Hr. reflexivity.
Qed.

(** The greeting and EHLO get error codes, the sender is refused with
    550, the recipient is accepted. *)
Lemma answered_session_returns_rcpt_reply_witness :
  settled (run "mx" "a@b" "c@d" session0
             [ EvConnect; EvData ("554 go away" +:+ CRLF); EvTick 1;
               EvWritten 2 None; EvData ("500 what" +:+ CRLF); EvTick 3;
               EvWritten 4 None; EvData ("550 no sender" +:+ CRLF); EvTick 5;
               EvWritten 6 None; EvData ("250 Ok" +:+ CRLF); EvTick 7 ])
  = Some (ProbeResult "mx" (Reply 250 "250 Ok")).
Proof.
  apply answered_session_returns_rcpt_reply; by eexists.
Defined.

(** ** The batch endpoint *)

#[local] Set Warnings "-clear-no-such-hyp".

Lemma dom_assign (results : gmap string classification) e c :
  dom (assign results e c)
  = if String.eqb e "__proto__" then dom results
    else {[ e ]} ∪ dom results.
Proof.
  unfold assign. destruct (String.eqb e "__proto__"); [done|].
  by rewrite dom_insert_L.
Qed.

Lemma verify_all_no_throw envs k emails acc w e :
  (verify_all envs k emails acc w).1 <> Thrown e.
Proof.
  revert k acc w.
  induction emails as [|a emails IH]; intros k acc w; cbn [verify_all].
  - discriminate.
  - unfold bind at 1.
    pose proof (verifyEmail_no_throw (envs k) a default_from w) as Hno.
    destruct (verifyEmail (envs k) a default_from w) as [[c|e'|] w1].
    + apply IH.
    + by destruct (Hno e').
    + discriminate.
Qed.

Lemma verify_all_returns envs k emails acc w :
  (forall k n h to, EvTimer ∈ session_events (envs k) n h to) ->
  exists results w',
    verify_all envs k emails acc w = (Returned results, w')
    /\ dom results
       = dom acc ∪ (list_to_set emails ∖ {[ "__proto__" ]}).
Proof.
  intros Hfair. revert k acc w.
  induction emails as [|a emails IH]; intros k acc w; cbn [verify_all].
  - exists acc, w. split; [done|]. set_solver.
  - unfold bind at 1.
    destruct (verifyEmail_returns (envs k) a default_from w (Hfair k))
      as (c & w1 & ->).
    destruct (IH (S k) (assign acc a c) w1) as (results & w' & -> & Hdom).
    exists results, w'. split; [done|].
    rewrite Hdom, dom_assign.
    destruct (String.eqb a "__proto__") eqn:Ha.
    + apply String.eqb_eq in Ha as ->. set_solver.
    + apply String.eqb_neq in Ha. set_solver.
Qed.

(** X12: the endpoint always answers and never throws.  When
    [req.body.email] is not an array the answer is 400 with the error
    [email array required] and nothing is resolved or probed.
    Otherwise, provided every session timer is delivered, the answer is
    200 with an object whose keys are exactly the addresses of the
    array, each once, except the address [__proto__], which never
    becomes a key. *)
Theorem batch_response envs b w :
  (forall e, (post_verify envs b w).1 <> Thrown e)
  /\ (b = NotAnArray ->
      post_verify envs b w
      = (Returned (Response 400 (ErrorBody "email array required")), w))
  /\ (forall emails,
        b = EmailArray emails ->
        (forall k n h to, EvTimer ∈ session_events (envs k) n h to) ->
        exists results w',
          post_verify envs b w
          = (Returned (Response 200 (ResultsBody results)), w')
          /\ dom results = list_to_set emails ∖ {[ "__proto__" ]}).
Proof.
  split; [|split].
  - intros e. destruct b as [|emails]; [discriminate|].
    unfold post_verify, bind.
    pose proof (verify_all_no_throw envs 0 emails ∅ w) as Hno.
    destruct (verify_all envs 0 emails ∅ w) as [[results|e'|] w1];
      [discriminate|by destruct (Hno e')|discriminate].
  - by intros ->.
  - intros emails -> Hfair.
    destruct (verify_all_returns envs 0 emails ∅ w Hfair)
      as (results & w' & Hall & Hdom).
    exists results, w'. unfold post_verify, bind. rewrite Hall.
    split; [done|]. rewrite Hdom. set_solver.
Qed.

Lemma batch_response_witness :
  exists results w',
    post_verify (fun _ => no_dns_env)
      (EmailArray ["bob@example.org"; "__proto__"; "bob@example.org"]) world0
    = (Returned (Response 200 (ResultsBody results)), w')
    /\ dom results
       = list_to_set ["bob@example.org"; "__proto__"; "bob@example.org"]
         ∖ {[ "__proto__" ]}.
Proof.
  destruct (batch_response (fun _ => no_dns_env)
              (EmailArray ["bob@example.org"; "__proto__"; "bob@example.org"])
              world0) as (_ & _ & H).
  apply H; [reflexivity|].
  intros k n h to. simpl. unfold silence. repeat first [by left | right].
Defined.

Lemma verifyEmail_malformed env email from w :
  count_char "@" email <> 1%nat ->
  verifyEmail env email from w = (Returned invalid_format, w).
Proof.
  intros Hcount. pose proof (length_split_on "@" email) as Hlen.
  unfold verifyEmail.
  destruct (split_on "@" email) as [|local [|domain [|]]]; try done.
  simpl in Hlen. lia.
Qed.

Lemma lookup_assign_eq (acc : gmap string classification) e c :
  e <> "__proto__" -> assign acc e c !! e = Some c.
Proof.
  intros He. unfold assign.
  apply String.eqb_neq in He. rewrite He. apply lookup_insert_eq.
Qed.

Lemma lookup_assign_ne (acc : gmap string classification) a e c :
  a <> e -> assign acc a c !! e = acc !! e.
Proof.
  intros Hae. unfold assign.
  destruct (String.eqb a "__proto__"); [done|].
  by apply lookup_insert_ne.
Qed.

(** An address whose classification does not depend on the environment
    keeps it in the results of a batch. *)
Lemma verify_all_constant envs k emails acc w results w' e c :
  (forall k w, (verifyEmail (envs k) e default_from w).1 = Returned c) ->
  e <> "__proto__" ->
  verify_all envs k emails acc w = (Returned results, w') ->
  e ∈ emails \/ acc !! e = Some c ->
  results !! e = Some c.
Proof.
  intros Hconst He. revert k acc w.
  induction emails as [|a emails IH]; intros k acc w; cbn [verify_all].
  - intros [= <- _] [Hin | Hacc]; [inversion Hin|done].
  - unfold bind at 1.
    destruct (verifyEmail (envs k) a default_from w) as [[ca|e'|] w1] eqn:Ha;
      try discriminate.
    intros Hall Hin. apply (IH _ _ _ Hall).
    destruct (decide (a = e)) as [-> | Hae].
    + right. specialize (Hconst k w). rewrite Ha in Hconst.
      injection Hconst as ->. by apply lookup_assign_eq.
    + destruct Hin as [Hin | Hacc].
      * apply elem_of_cons in Hin as [-> | Hin]; [done|by left].
      * right. by rewrite lookup_assign_ne.
Qed.

(** X13: in the answer to a batch, every address that does not contain
    exactly one at sign is reported as [invalid_format] and every
    address whose local part is a role account, in any case of its
    letters, as [role_based], whatever the resolver and the network do
    for the other addresses of the batch and however often the address
    is listed.  Only the key [__proto__] is missing from the answer. *)
Theorem batch_static_results envs emails w results w' e :
  post_verify envs (EmailArray emails) w
  = (Returned (Response 200 (ResultsBody results)), w') ->
  e ∈ emails ->
  (e = "__proto__" -> results !! e = None)
  /\ (e <> "__proto__" ->
      (count_char "@" e <> 1%nat -> results !! e = Some invalid_format)
      /\ (forall local domain,
            split_on "@" e = [local; domain] ->
            toLowerCase local ∈ roleBased ->
            results !! e = Some role_based)).
Proof.
  unfold post_verify, bind.
  destruct (verify_all envs 0 emails ∅ w) as [[results'|e'|] w1] eqn:Hall;
    try discriminate.
  intros [= <- <-] Hin. split.
  - intros ->. apply not_elem_of_dom.
    assert (Hkeys : forall l k acc w0 res w2,
              verify_all envs k l acc w0 = (Returned res, w2) ->
              "__proto__" ∉ dom acc -> "__proto__" ∉ dom res).
    { induction l as [|a l IH]; intros k acc w0 res w2; cbn [verify_all].
      - by intros [= <- _].
      - unfold bind at 1.
        destruct (verifyEmail (envs k) a default_from w0)
          as [[ca|e'|] w3]; try discriminate.
        intros Hl Hacc. apply (IH _ _ _ _ _ Hl).
        rewrite dom_assign.
        destruct (String.eqb a "__proto__") eqn:Ha; [done|].
        apply String.eqb_neq in Ha. set_solver. }
    apply (Hkeys _ _ _ _ _ _ Hall). set_solver.
  - intros He. split.
    + intros Hcount.
      apply (verify_all_constant envs 0 emails ∅ w results' w1 e
               invalid_format); auto.
      intros k w0. by rewrite verifyEmail_malformed.
    + intros local domain Hsplit Hrole.
      apply (verify_all_constant envs 0 emails ∅ w results' w1 e
               role_based); auto.
      intros k w0.
      rewrite (verifyEmail_role_based _ _ _ _ local domain); [done|done|].
      unfold includes. by apply bool_decide_eq_true.
Qed.

Lemma batch_static_results_witness :
  exists results w',
    post_verify (fun _ => no_dns_env)
      (EmailArray ["Info@example.org"; "nobody"]) world0
    = (Returned (Response 200 (ResultsBody results)), w')
    /\ results !! "nobody" = Some invalid_format
    /\ results !! "Info@example.org" = Some role_based.
Proof.
  destruct (verify_all_returns (fun _ => no_dns_env) 0
              ["Info@example.org"; "nobody"] ∅ world0)
    as (results & w' & Hall & _).
  { intros k n h to. simpl. unfold silence. repeat first [by left | right]. }
  assert (Hres : post_verify (fun _ => no_dns_env)
                   (EmailArray ["Info@example.org"; "nobody"]) world0
                 = (Returned (Response 200 (ResultsBody results)), w')).
  { unfold post_verify, bind. by rewrite Hall. }
  exists results, w'. split; [exact Hres|]. split.
  - destruct (batch_static_results (fun _ => no_dns_env)
                ["Info@example.org"; "nobody"] world0 results w' "nobody"
                Hres) as [_ H]; [right; by left|].
    destruct (H ltac:(discriminate)) as [H1 _].
    apply H1. vm_compute. lia.
  - destruct (batch_static_results (fun _ => no_dns_env)
                ["Info@example.org"; "nobody"] world0 results w'
                "Info@example.org" Hres) as [_ H]; [by left|].
    destruct (H ltac:(discriminate)) as [_ H2].
    apply (H2 "Info" "example.org"); [reflexivity|].
    unfold roleBased. right. right. by left.
Defined.

Lemma verify_all_app envs k l1 l2 acc w :
  verify_all envs k (l1 ++ l2) acc w
  = match verify_all envs k l1 acc w with
    | (Returned acc1, w1) => verify_all envs (k + length l1) l2 acc1 w1
    | (Thrown e, w1) => (Thrown e, w1)
    | (Pending, w1) => (Pending, w1)
    end.
Proof.
  revert k acc w.
  induction l1 as [|a l1 IH]; intros k acc w;
    cbn [verify_all app length].
  - unfold ret. by rewrite Nat.add_0_r.
  - unfold bind at 1 2.
    destruct (verifyEmail (envs k) a default_from w) as [[c|e|] w1];
      [|done|done].
    rewrite IH. by rewrite Nat.add_succ_r.
Qed.

Lemma verify_all_keeps envs k l acc w results w' e :
  e ∉ l ->
  verify_all envs k l acc w = (Returned results, w') ->
  results !! e = acc !! e.
Proof.
  revert k acc w.
  induction l as [|a l IH]; intros k acc w Hout; cbn [verify_all].
  - by intros [= <- _].
  - unfold bind at 1.
    destruct (verifyEmail (envs k) a default_from w) as [[c|e'|] w1];
      try discriminate.
    apply not_elem_of_cons in Hout as [Hne Hout].
    intros Hall. rewrite (IH _ _ _ Hout Hall).
    by apply lookup_assign_ne.
Qed.

(** X14: an address that is listed more than once is verified once per
    listing, and the answer holds the classification of its last
    verification: the one made after all the addresses listed before
    it, in the world they left behind. *)
Theorem batch_last_listing_wins envs before e after w results w' :
  post_verify envs (EmailArray (before ++ e :: after)) w
  = (Returned (Response 200 (ResultsBody results)), w') ->
  e <> "__proto__" -> e ∉ after ->
  exists acc1 w1 c w2,
    verify_all envs 0 before ∅ w = (Returned acc1, w1)
    /\ verifyEmail (envs (length before)) e default_from w1
       = (Returned c, w2)
    /\ results !! e = Some c.
Proof.
  unfold post_verify, bind. rewrite verify_all_app.
  destruct (verify_all envs 0 before ∅ w) as [[acc1|e'|] w1];
    try discriminate.
  cbn [verify_all Nat.add]. unfold bind at 1.
  destruct (verifyEmail (envs (length before)) e default_from w1)
    as [[c|e'|] w2] eqn:He; try discriminate.
  destruct (verify_all envs (S (length before)) after (assign acc1 e c) w2)
    as [[res|e'|] w3] eqn:Hafter; try discriminate.
  intros [= <- <-] Hproto Hout.
  exists acc1, w1, c, w2. split; [done|]. split; [done|].
  rewrite (verify_all_keeps _ _ _ _ _ _ _ e Hout Hafter).
  by apply lookup_assign_eq.
Qed.

(** The same address twice: malformed addresses in between do not
    matter, and the second verification gives the value. *)
Lemma batch_last_listing_wins_witness :
  exists results w' acc1 w1 c w2,
    post_verify (fun _ => no_dns_env)
      (EmailArray (["bob@example.org"; "x"] ++ "bob@example.org" :: []))
      world0
    = (Returned (Response 200 (ResultsBody results)), w')
    /\ verify_all (fun _ => no_dns_env) 0 ["bob@example.org"; "x"] ∅ world0
       = (Returned acc1, w1)
    /\ verifyEmail no_dns_env "bob@example.org" default_from w1
       = (Returned c, w2)
    /\ results !! "bob@example.org" = Some c.
Proof.
  destruct (verify_all_returns (fun _ => no_dns_env) 0
              (["bob@example.org"; "x"] ++ "bob@example.org" :: [])
              ∅ world0)
    as (results & w' & Hall & _).
  { intros k n h to. simpl. unfold silence. repeat first [by left | right]. }
  assert (Hres : post_verify (fun _ => no_dns_env)
                   (EmailArray
                      (["bob@example.org"; "x"] ++ "bob@example.org" :: []))
                   world0
                 = (Returned (Response 200 (ResultsBody results)), w')).
  { unfold post_verify, bind. by rewrite Hall. }
  destruct (batch_last_listing_wins (fun _ => no_dns_env)
              ["bob@example.org"; "x"] "bob@example.org" [] world0
              results w' Hres)
    as (acc1 & w1 & c & w2 & H1 & H2 & H3).
  - discriminate.
  - intros Hin. inversion Hin.
  - exists results, w', acc1, w1, c, w2. auto.
Defined.

(** ** The generated recipient *)

Lemma count_char_app c a b :
  count_char c (a +:+ b) = (count_char c a + count_char c b)%nat.
Proof.
  induction a as [|x a IH]; simpl; [done|].
  destruct (Ascii.eqb x c); simpl; by rewrite IH.
Qed.

Lemma string_of_uint_no_at d :
  count_char "@" (NilEmpty.string_of_uint d) = 0%nat.
Proof. induction d; simpl; done. Qed.

Lemma show_no_at z : count_char "@" (show z) = 0%nat.
Proof.
  unfold show, NilZero.string_of_int, NilZero.string_of_uint.
  destruct (Z.to_int z) as [d|d]; destruct d; simpl; try done;
    apply string_of_uint_no_at.
Qed.

(** X15: the recipient generated for the catch-all check is itself an
    address with exactly one at sign: it splits into a local part that
    starts with [catchall_test_] and is therefore no role account, and
    the domain of the address under verification.  So the second probe
    asks the same host about a mailbox of the same domain. *)
Theorem generated_recipient_is_an_address env email local domain :
  split_on "@" email = [local; domain] ->
  exists user,
    split_on "@" (fake_email env domain)
    = ["catchall_test_" +:+ user; domain]
    /\ includes roleBased (toLowerCase ("catchall_test_" +:+ user)) = false.
Proof.
  intros Hsplit.
  assert (Hdom : count_char "@" domain = 0%nat).
  { apply (split_on_parts_free "@" email). rewrite Hsplit. right. by left. }
  exists (show (Date_now env) +:+ "_" +:+ show (random_1000 env)).
  split.
  - unfold fake_email.
    change (?a +:+ "@" +:+ domain) with (a +:+ String "@" domain).
    rewrite split_on_app.
    + by rewrite split_on_free.
    + rewrite !count_char_app, !show_no_at. reflexivity.
  - unfold includes. apply bool_decide_eq_false. simpl.
    unfold roleBased. intros Hin.
    repeat (apply elem_of_cons in Hin as [Hin | Hin]; [discriminate|]).
    inversion Hin.
Qed.

Lemma generated_recipient_is_an_address_witness :
  exists user,
    split_on "@" (fake_email no_dns_env "example.org")
    = ["catchall_test_" +:+ user; "example.org"]
    /\ includes roleBased (toLowerCase ("catchall_test_" +:+ user)) = false.
Proof.
  exact (generated_recipient_is_an_address no_dns_env "bob@example.org"
           "bob" "example.org" eq_refl).
Defined.

(** ** Order of the hosts, end of the loop, the session timer *)

(** X16: mail exchangers of equal priority are tried in the order of
    the DNS answer.  The hosts are the exchanges of a list of records
    that is sorted by priority and that, for every priority, holds the
    records of that priority in the order in which the answer had
    them. *)
Theorem equal_priorities_keep_answer_order env domain w mx :
  dns_mx env domain = Resolved mx -> mx <> [] ->
  exists sorted,
    (getMxHosts env domain w).1
    = Returned (map (fun m => strip_trailing_dot (exchange m)) sorted)
    /\ Sorted by_priority sorted
    /\ (forall p,
          filter (fun m => priority m = p) sorted
          = filter (fun m => priority m = p) mx).
Proof.
  intros Hmx Hne. exists (sort_by_priority mx).
  rewrite (getMxHosts_mx env domain w mx) by done.
  split; [done|]. split; [apply sort_by_priority_sorted|].
  intros p. apply sort_by_priority_stable.
Qed.

Lemma equal_priorities_keep_answer_order_witness :
  exists sorted,
    (getMxHosts
       (sim_env
          (fun _ => Resolved [Mx "b.example.org" 10; Mx "c.example.org" 5;
                              Mx "a.example.org" 10])
          nxdomain nxdomain (fun _ _ _ => silence))
       "example.org" world0).1
    = Returned (map (fun m => strip_trailing_dot (exchange m)) sorted)
    /\ Sorted by_priority sorted
    /\ (forall p,
          filter (fun m => priority m = p) sorted
          = filter (fun m => priority m = p)
              [Mx "b.example.org" 10; Mx "c.example.org" 5;
               Mx "a.example.org" 10]).
Proof.
  apply equal_priorities_keep_answer_order; [reflexivity|discriminate].
Defined.

(** X17: when the probe of every host settles with code 0 or with a
    code outside the ranges the loop tests (below 200, from 300 to 399,
    600 and above), the result is [unknown]; every host has been probed
    exactly once, in the order of the list, for the address itself,
    and no catch-all probe was made. *)
Theorem inconclusive_hosts_give_unknown
    env email from local domain w w1 hosts :
  split_on "@" email = [local; domain] ->
  includes roleBased (toLowerCase local) = false ->
  getMxHosts env domain w = (Returned hosts, w1) ->
  hosts <> [] ->
  has disposableDomains domain = false ->
  probes_satisfy (fun c => negb (conclusive c)) env from email
    (conns w1) hosts ->
  verifyEmail env email from w
  = (Returned unknown,
     World (trace w1 ++ map (fun x => Connect x 25 email) hosts)
           (conns w1 + length hosts)).
Proof.
  intros Hsplit Hrole Hmx Hne Hdisp Hall.
  rewrite (verifyEmail_probing env email from local domain w w1 hosts)
    by done.
  rewrite <- (app_nil_r hosts) at 1.
  by rewrite probe_hosts_skip.
Qed.

(** One host answers RCPT TO with 354, the other with 199. *)
Lemma inconclusive_hosts_give_unknown_witness :
  verifyEmail
    (two_hosts_env (dialogue "354 go ahead") "bob@example.org"
       "199 odd" "199 odd")
    "bob@example.org" default_from world0
  = (Returned unknown,
     World [DnsMx "example.org";
            Connect "mx1.example.org" 25 "bob@example.org";
            Connect "mx2.example.org" 25 "bob@example.org"] 2).
Proof.
  refine (inconclusive_hosts_give_unknown
            (two_hosts_env (dialogue "354 go ahead") "bob@example.org"
               "199 odd" "199 odd")
            "bob@example.org" default_from "bob" "example.org"
            world0 (World [DnsMx "example.org"] 0)
            ["mx1.example.org"; "mx2.example.org"]
            eq_refl eq_refl eq_refl _ eq_refl _).
  - discriminate.
  - split; [eexists; split; reflexivity|].
    split; [eexists; split; reflexivity|exact I].
Defined.

(** X18: the session timer is armed exactly as long as the promise is
    unsettled.  Every way of settling the promise cancels the timer or
    is the timer itself, so a settled session leaves no timer behind,
    and an unsettled one is always still bounded by its timer. *)
Theorem timer_armed_iff_unsettled h from to evs :
  timer (run h from to session0 evs) = true
  <-> settled (run h from to session0 evs) = None.
Proof.
  apply (inv_timer h).
  apply Inv_run, Inv_session0.
Qed.

Lemma timer_armed_iff_unsettled_witness :
  timer (run "mx" "a@b" "c@d" session0 [EvConnect; EvTick 50]) = true.
Proof.
  apply (timer_armed_iff_unsettled "mx" "a@b" "c@d"). reflexivity.
Defined.
